(** * ApplyVSchemaDDL: applying one VSchema DDL statement to a keyspace

    Shallow embedding of [go/vt/topotools/vschema_ddl.go].

    The Go function fetches the keyspace's VSchema object from the topology
    server, mutates that object in place while it dispatches on the DDL
    action, and returns either the very same object or [nil] and an error.
    Because an error can be returned after the object was already written
    to, the embedding keeps the object as explicit state: a handler is a
    computation in a small state-and-error monad whose state is the
    [KeyspaceVSchemaInfo] being edited, and a failing computation still
    yields the state reached at the point of the [return nil, err].

    Conventions.
    - Go maps are [gmap]s.  [ksvs.Tables] and [ksvs.Vindexes] are replaced
      by empty maps when nil before anything reads them (lines 50-56), so
      for these two nil and empty are identified.  [Vindex.Params] is
      compared with [reflect.DeepEqual], which tells a nil map from an empty
      one, so it is an [option (gmap string string)] with [None] for nil.
    - The object graph is the tree protobuf decoding produces: map values
      and slice elements are non-nil and no two tables share a record or a
      backing array.  A write through the [table] pointer is therefore a
      write to that table's entry of [Tables].
    - Only the message fields the function reads or writes are kept.
    - The parsed statement is seen through the accessor methods the function
      calls on it ([Table.IsEmpty()], [Table.Name.String()],
      [VindexSpec.ParseParams()], ...); their code belongs to package
      sqlparser, so [AlterVschema] records the values they return.
    - The order in which [range] visits a Go map is unspecified; it is the
      section variable [rangeTables], constrained only to enumerate the
      map. *)

From stdpp Require Import base option list strings gmap fin_maps.

Local Open Scope string_scope.

(** ** vschemapb messages *)

Record ColumnVindex := {
  cvName : string;
  cvColumns : list string
}.

Record Vindex := {
  vType : string;
  vParams : option (gmap string string);
  vOwner : string
}.

Record AutoIncrement := {
  aiColumn : string;
  aiSequence : string
}.

Record Table := {
  tType : string;
  tColumnVindexes : list ColumnVindex;
  tAutoIncrement : option AutoIncrement
}.

(** [topo.KeyspaceVSchemaInfo]: the keyspace name and the embedded
    [vschemapb.Keyspace]. *)
Record KeyspaceVSchemaInfo := {
  Name : string;
  Sharded : bool;
  Tables : gmap string Table;
  Vindexes : gmap string Vindex
}.

#[global] Instance ColumnVindex_eq_dec : EqDecision ColumnVindex.
Proof. solve_decision. Defined.
#[global] Instance Vindex_eq_dec : EqDecision Vindex.
Proof. solve_decision. Defined.
#[global] Instance AutoIncrement_eq_dec : EqDecision AutoIncrement.
Proof. solve_decision. Defined.
#[global] Instance Table_eq_dec : EqDecision Table.
Proof. solve_decision. Defined.
#[global] Instance KeyspaceVSchemaInfo_eq_dec : EqDecision KeyspaceVSchemaInfo.
Proof. solve_decision. Defined.

(** ** The parsed statement *)

Inductive DDLAction :=
  | CreateVindexDDLAction
  | DropVindexDDLAction
  | AddVschemaTableDDLAction
  | DropVschemaTableDDLAction
  | AddColVindexDDLAction
  | DropColVindexDDLAction
  | AddSequenceDDLAction
  | DropSequenceDDLAction
  | AddAutoIncDDLAction
  | DropAutoIncDDLAction
  | OtherDDLAction (toString : string).

Record AlterVschema := {
  Action : DDLAction;
  TableIsEmpty : bool;                       (* Table.IsEmpty() *)
  TableName : string;                        (* Table.Name.String() *)
  SpecName : string;                         (* VindexSpec.Name.String() *)
  SpecTypeNotEmpty : bool;                   (* VindexSpec.Type.NotEmpty() *)
  SpecType : string;                         (* VindexSpec.Type.String() *)
  SpecOwner : string;                        (* first result of ParseParams() *)
  SpecParams : option (gmap string string);  (* second result of ParseParams() *)
  VindexCols : list string;                  (* col.String() of each VindexCols *)
  AutoIncColumn : string;                    (* AutoIncSpec.Column.String() *)
  AutoIncSequence : string                   (* sqlparser.String(AutoIncSpec.Sequence) *)
}.

(** ** Errors

    One constructor per message format of the function; the three
    "does not contain table" sites (lines 123, 249, 267) share theirs, as
    they share the format string. *)

Inductive Code := Code_FAILED_PRECONDITION | Code_INTERNAL.

Inductive ShardedOp := OpAddVschemaTable | OpAddSequenceTable | OpDropSequenceTable.

Inductive Error :=
  | ErrReadOnly                                               (* line 35 *)
  | ErrGetVSchema (cause : string) (ksName : string)          (* line 46 *)
  | ErrVindexAlreadyExists (name ksName : string)             (* line 69 *)
  | ErrVindexDoesNotExists (name ksName : string)             (* line 90 *)
  | ErrVindexStillDefined (name tableName : string)           (* line 97 *)
  | ErrUnsupportedOnSharded (op : ShardedOp) (ksName : string)  (* lines 108, 219, 233 *)
  | ErrAlreadyContainsTable (name ksName : string)            (* line 113 *)
  | ErrDoesNotContainTable (name ksName : string)             (* lines 123, 249, 267 *)
  | ErrVindexType (name defined requested : string)           (* line 145 *)
  | ErrVindexOwner (name defined requested : string)          (* line 148 *)
  | ErrVindexParams (name : string)                           (* line 151 *)
  | ErrVindexDoesNotExist (name ksName : string)              (* line 167 *)
  | ErrVindexAlreadyOnTable (name tableName : string)         (* line 183 *)
  | ErrTableNotDefined (ksName tableName : string)            (* line 203 *)
  | ErrVindexNotInTable (name ksName tableName : string)      (* line 215 *)
  | ErrAlreadyContainsSequence (name ksName : string)         (* line 224 *)
  | ErrDoesNotContainSequence (name ksName : string)          (* line 238 *)
  | ErrAlreadyContainsAutoInc (ai : AutoIncrement) (name ksName : string)  (* line 253 *)
  | ErrDoesNotContainAutoInc (name ksName : string)           (* line 271 *)
  | ErrUnexpectedOperation (action : string).                 (* line 279 *)

#[global] Instance DDLAction_eq_dec : EqDecision DDLAction.
Proof. solve_decision. Defined.
#[global] Instance ShardedOp_eq_dec : EqDecision ShardedOp.
Proof. solve_decision. Defined.
#[global] Instance Error_eq_dec : EqDecision Error.
Proof. solve_decision. Defined.

(** The code passed to [vterrors.Errorf]; [vterrors.Wrapf] keeps the code
    of the error it wraps, which the topology server chose. *)
Definition errorCode (e : Error) : option Code :=
  match e with
  | ErrReadOnly => Some Code_FAILED_PRECONDITION
  | ErrGetVSchema _ _ => None
  | _ => Some Code_INTERNAL
  end.

(** ** The state-and-error monad of a handler *)

Definition M (A : Type) : Type :=
  KeyspaceVSchemaInfo → KeyspaceVSchemaInfo * (Error + A).

Definition ret {A} (a : A) : M A := λ ksvs, (ksvs, inr a).

Definition bind {A B} (m : M A) (k : A → M B) : M B :=
  λ ksvs, match m ksvs with
          | (ksvs', inr a) => k a ksvs'
          | (ksvs', inl e) => (ksvs', inl e)
          end.

(** [return nil, err]: the object stays as it is at this point. *)
Definition fail {A} (e : Error) : M A := λ ksvs, (ksvs, inl e).

Definition gets {A} (f : KeyspaceVSchemaInfo → A) : M A := λ ksvs, (ksvs, inr (f ksvs)).

Definition modify (f : KeyspaceVSchemaInfo → KeyspaceVSchemaInfo) : M unit :=
  λ ksvs, (f ksvs, inr tt).

Definition when (b : bool) (m : M unit) : M unit := if b then m else ret tt.

#[global] Instance M_ret : MRet M := @ret.
#[global] Instance M_bind : MBind M := λ A B k m, bind m k.

(** Field writes on the object. *)
Definition setSharded (b : bool) : M unit :=
  modify (λ ksvs, {| Name := Name ksvs; Sharded := b;
                     Tables := Tables ksvs; Vindexes := Vindexes ksvs |}).

Definition setTables (f : gmap string Table → gmap string Table) : M unit :=
  modify (λ ksvs, {| Name := Name ksvs; Sharded := Sharded ksvs;
                     Tables := f (Tables ksvs); Vindexes := Vindexes ksvs |}).

Definition setVindexes (f : gmap string Vindex → gmap string Vindex) : M unit :=
  modify (λ ksvs, {| Name := Name ksvs; Sharded := Sharded ksvs;
                     Tables := Tables ksvs; Vindexes := f (Vindexes ksvs) |}).

(** ** Helpers for the loops and comparisons of the function *)

(** [len(m)] of a possibly nil map. *)
Definition lenParams (p : option (gmap string string)) : nat :=
  match p with
  | None => 0
  | Some m => size m
  end.

(** The condition of line 150; [reflect.DeepEqual] on two maps holds when
    both are nil, or both are non-nil with the same keys and values. *)
Definition paramsDiffer (defined requested : option (gmap string string)) : bool :=
  (negb (Nat.eqb (lenParams defined) 0) || negb (Nat.eqb (lenParams requested) 0))
  && negb (bool_decide (defined = requested)).

(** The loops of lines 95-99 and 181-185: is one of the column vindexes
    named [name]? *)
Fixpoint definedOn (name : string) (cvs : list ColumnVindex) : bool :=
  match cvs with
  | [] => false
  | vindex :: rest =>
      if bool_decide (cvName vindex = name) then true else definedOn name rest
  end.

(** The loop of lines 206-214: the index of the first column vindex named
    [name]. *)
Fixpoint indexOf (name : string) (cvs : list ColumnVindex) : option nat :=
  match cvs with
  | [] => None
  | colVindex :: rest =>
      if bool_decide (cvName colVindex = name) then Some 0
      else S <$> indexOf name rest
  end.

(** [append(s[:i], s[i+1:]...)]. *)
Definition removeAt (i : nat) (cvs : list ColumnVindex) : list ColumnVindex :=
  take i cvs ++ drop (S i) cvs.

(** The outer loop of lines 93-100 over the tables in the order [range]
    yields them: the first table that still carries the vindex. *)
Fixpoint stillDefinedOn (name : string) (tables : list (string * Table)) : option string :=
  match tables with
  | [] => None
  | (tableName, table) :: rest =>
      if definedOn name (tColumnVindexes table) then Some tableName
      else stillDefinedOn name rest
  end.

Definition emptyTable : Table :=
  {| tType := ""; tColumnVindexes := []; tAutoIncrement := None |}.

Definition withColumnVindexes (table : Table) (cvs : list ColumnVindex) : Table :=
  {| tType := tType table; tColumnVindexes := cvs;
     tAutoIncrement := tAutoIncrement table |}.

Definition withAutoIncrement (table : Table) (ai : option AutoIncrement) : Table :=
  {| tType := tType table; tColumnVindexes := tColumnVindexes table;
     tAutoIncrement := ai |}.

(** ** The function *)

(** Modelled from the spec: [topo.Server.GetVSchema] and [topo.IsErrType]
    are not part of this file's source.  The schema store accessor answers
    with the stored schema, with "no existing schema" (the error that
    [topo.IsErrType(err, topo.NoNode)] recognises), or with another error. *)
Inductive GetVSchemaResult :=
  | GotVSchema (ksvs : KeyspaceVSchemaInfo)
  | NoNode
  | OtherError (err : string).

(** A [*topo.Server]; [None] is the nil pointer. *)
Record Server := { GetVSchema : string → GetVSchemaResult }.

Section ApplyVSchemaDDL.

(** The order in which [range ksvs.Tables] yields the entries: some
    enumeration of the map, [rangeTables m ≡ₚ map_to_list m].  The
    statements that depend on it take this as a premise. *)
Variable rangeTables : gmap string Table → list (string * Table).

(** Lines 66-85. *)
Definition createVindex (ksName : string) (alterVschema : AlterVschema) : M unit :=
  let name := SpecName alterVschema in
  vindexes ← gets Vindexes;
  match vindexes !! name with
  | Some _ => fail (ErrVindexAlreadyExists name ksName)
  | None =>
      when (Nat.eqb (size vindexes) 0) (setSharded true);;
      setVindexes <[name := {| vType := SpecType alterVschema;
                               vParams := SpecParams alterVschema;
                               vOwner := SpecOwner alterVschema |}]>
  end.

(** Lines 87-104. *)
Definition dropVindex (ksName : string) (alterVschema : AlterVschema) : M unit :=
  let name := SpecName alterVschema in
  vindexes ← gets Vindexes;
  match vindexes !! name with
  | None => fail (ErrVindexDoesNotExists name ksName)
  | Some _ =>
      tables ← gets Tables;
      match stillDefinedOn name (rangeTables tables) with
      | Some tableName => fail (ErrVindexStillDefined name tableName)
      | None => setVindexes (delete name)
      end
  end.

(** Lines 106-118. *)
Definition addVschemaTable (ksName : string) (alterVschema : AlterVschema) : M unit :=
  sharded ← gets Sharded;
  if (sharded : bool) then fail (ErrUnsupportedOnSharded OpAddVschemaTable ksName)
  else
    let name := TableName alterVschema in
    tables ← gets Tables;
    match tables !! name with
    | Some _ => fail (ErrAlreadyContainsTable name ksName)
    | None => setTables <[name := emptyTable]>
    end.

(** Lines 120-128. *)
Definition dropVschemaTable (ksName : string) (alterVschema : AlterVschema) : M unit :=
  let name := TableName alterVschema in
  tables ← gets Tables;
  match tables !! name with
  | None => fail (ErrDoesNotContainTable name ksName)
  | Some _ => setTables (delete name)
  end.

(** Lines 139-169: the vindex named by the statement is checked against the
    keyspace, or created. *)
Definition resolveVindex (ksName : string) (alterVschema : AlterVschema) : M unit :=
  let name := SpecName alterVschema in
  vindexes ← gets Vindexes;
  if SpecTypeNotEmpty alterVschema then
    let owner := SpecOwner alterVschema in
    let params := SpecParams alterVschema in
    match vindexes !! name with
    | Some vindex =>
        if negb (bool_decide (vType vindex = SpecType alterVschema)) then
          fail (ErrVindexType name (vType vindex) (SpecType alterVschema))
        else if negb (bool_decide (vOwner vindex = owner)) then
          fail (ErrVindexOwner name (vOwner vindex) owner)
        else if paramsDiffer (vParams vindex) params then
          fail (ErrVindexParams name)
        else mret tt
    | None =>
        when (Nat.eqb (size vindexes) 0) (setSharded true);;
        setVindexes <[name := {| vType := SpecType alterVschema;
                                 vParams := params;
                                 vOwner := owner |}]>
    end
  else
    match vindexes !! name with
    | None => fail (ErrVindexDoesNotExist name ksName)
    | Some _ => mret tt
    end.

(** Lines 130-197; [tableName] and [table] are the locals of lines 58-63. *)
Definition addColVindex (ksName : string) (alterVschema : AlterVschema)
    (tableName : string) (table : option Table) : M unit :=
  let name := SpecName alterVschema in
  resolveVindex ksName alterVschema;;
  let table := default emptyTable table in
  if definedOn name (tColumnVindexes table) then
    fail (ErrVindexAlreadyOnTable name tableName)
  else
    let columns := VindexCols alterVschema in
    let table := withColumnVindexes table
                   (tColumnVindexes table ++ [{| cvName := name; cvColumns := columns |}]) in
    setTables <[tableName := table]>.

(** Lines 199-215. *)
Definition dropColVindex (ksName : string) (alterVschema : AlterVschema)
    (tableName : string) (table : option Table) : M unit :=
  let name := SpecName alterVschema in
  match table with
  | None => fail (ErrTableNotDefined ksName tableName)
  | Some table =>
      match indexOf name (tColumnVindexes table) with
      | Some i =>
          let table := withColumnVindexes table (removeAt i (tColumnVindexes table)) in
          setTables <[tableName := table]>;;
          when (Nat.eqb (length (tColumnVindexes table)) 0) (setTables (delete tableName))
      | None => fail (ErrVindexNotInTable name ksName tableName)
      end
  end.

(** Lines 217-229. *)
Definition addSequence (ksName : string) (alterVschema : AlterVschema) : M unit :=
  sharded ← gets Sharded;
  if (sharded : bool) then fail (ErrUnsupportedOnSharded OpAddSequenceTable ksName)
  else
    let name := TableName alterVschema in
    tables ← gets Tables;
    match tables !! name with
    | Some _ => fail (ErrAlreadyContainsSequence name ksName)
    | None => setTables <[name := {| tType := "sequence"; tColumnVindexes := [];
                                     tAutoIncrement := None |}]>
    end.

(** Lines 231-243. *)
Definition dropSequence (ksName : string) (alterVschema : AlterVschema) : M unit :=
  sharded ← gets Sharded;
  if (sharded : bool) then fail (ErrUnsupportedOnSharded OpDropSequenceTable ksName)
  else
    let name := TableName alterVschema in
    tables ← gets Tables;
    match tables !! name with
    | None => fail (ErrDoesNotContainSequence name ksName)
    | Some _ => setTables (delete name)
    end.

(** Lines 245-261. *)
Definition addAutoInc (ksName : string) (alterVschema : AlterVschema) : M unit :=
  let name := TableName alterVschema in
  tables ← gets Tables;
  match tables !! name with
  | None => fail (ErrDoesNotContainTable name ksName)
  | Some table =>
      match tAutoIncrement table with
      | Some ai => fail (ErrAlreadyContainsAutoInc ai name ksName)
      | None =>
          setTables <[name := withAutoIncrement table
                                (Some {| aiColumn := AutoIncColumn alterVschema;
                                         aiSequence := AutoIncSequence alterVschema |})]>
      end
  end.

(** Lines 263-276. *)
Definition dropAutoInc (ksName : string) (alterVschema : AlterVschema) : M unit :=
  let name := TableName alterVschema in
  tables ← gets Tables;
  match tables !! name with
  | None => fail (ErrDoesNotContainTable name ksName)
  | Some table =>
      match tAutoIncrement table with
      | None => fail (ErrDoesNotContainAutoInc name ksName)
      | Some _ => setTables <[name := withAutoIncrement table None]>
      end
  end.

(** Lines 58-279: the body of the function once [ksvs] is at hand.  The
    computation runs on the object; when it ends in [inr tt] the function
    returns that same object. *)
Definition applyDDL (ksName : string) (alterVschema : AlterVschema) : M unit :=
  tables ← gets Tables;
  let tableName := if TableIsEmpty alterVschema then "" else TableName alterVschema in
  let table := if TableIsEmpty alterVschema then None
               else tables !! TableName alterVschema in
  match Action alterVschema with
  | CreateVindexDDLAction => createVindex ksName alterVschema
  | DropVindexDDLAction => dropVindex ksName alterVschema
  | AddVschemaTableDDLAction => addVschemaTable ksName alterVschema
  | DropVschemaTableDDLAction => dropVschemaTable ksName alterVschema
  | AddColVindexDDLAction => addColVindex ksName alterVschema tableName table
  | DropColVindexDDLAction => dropColVindex ksName alterVschema tableName table
  | AddSequenceDDLAction => addSequence ksName alterVschema
  | DropSequenceDDLAction => dropSequence ksName alterVschema
  | AddAutoIncDDLAction => addAutoInc ksName alterVschema
  | DropAutoIncDDLAction => dropAutoInc ksName alterVschema
  | OtherDDLAction toString => fail (ErrUnexpectedOperation toString)
  end.

(** The object after the call, and the error if the call returned one. *)
Definition objectAfter (r : KeyspaceVSchemaInfo * (Error + unit)) : KeyspaceVSchemaInfo := r.1.

Definition errorOf (r : KeyspaceVSchemaInfo * (Error + unit)) : option Error :=
  match r.2 with
  | inl e => Some e
  | inr _ => None
  end.

(** The two results of the Go function: the object on success, the error
    otherwise. *)
Definition returned (r : KeyspaceVSchemaInfo * (Error + unit)) : Error + KeyspaceVSchemaInfo :=
  match r.2 with
  | inl e => inl e
  | inr _ => inr r.1
  end.

(** The schema synthesised at lines 41-44 (with lines 50-56 applied). *)
Definition emptyVSchema (ksName : string) : KeyspaceVSchemaInfo :=
  {| Name := ksName; Sharded := false; Tables := ∅; Vindexes := ∅ |}.

(** Lines 33-56, then the body. *)
Definition ApplyVSchemaDDL (ksName : string) (topoServer : option Server)
    (alterVschema : AlterVschema) : Error + KeyspaceVSchemaInfo :=
  match topoServer with
  | None => inl ErrReadOnly
  | Some topoServer =>
      match GetVSchema topoServer ksName with
      | GotVSchema ksvs => returned (applyDDL ksName alterVschema ksvs)
      | NoNode => returned (applyDDL ksName alterVschema (emptyVSchema ksName))
      | OtherError err => inl (ErrGetVSchema err ksName)
      end
  end.

End ApplyVSchemaDDL.

(** ** The object after a field write *)

Definition withTables (ksvs : KeyspaceVSchemaInfo) (tables : gmap string Table)
    : KeyspaceVSchemaInfo :=
  {| Name := Name ksvs; Sharded := Sharded ksvs;
     Tables := tables; Vindexes := Vindexes ksvs |}.

Definition withVindexes (ksvs : KeyspaceVSchemaInfo) (vindexes : gmap string Vindex)
    : KeyspaceVSchemaInfo :=
  {| Name := Name ksvs; Sharded := Sharded ksvs;
     Tables := Tables ksvs; Vindexes := vindexes |}.

(** The vindex a statement defines. *)
Definition specVindex (alterVschema : AlterVschema) : Vindex :=
  {| vType := SpecType alterVschema;
     vParams := SpecParams alterVschema;
     vOwner := SpecOwner alterVschema |}.

(** The column vindex a statement attaches. *)
Definition specColumnVindex (alterVschema : AlterVschema) : ColumnVindex :=
  {| cvName := SpecName alterVschema; cvColumns := VindexCols alterVschema |}.

(** The auto-increment a statement sets. *)
Definition specAutoIncrement (alterVschema : AlterVschema) : AutoIncrement :=
  {| aiColumn := AutoIncColumn alterVschema;
     aiSequence := AutoIncSequence alterVschema |}.

(** ** Predicates used in the statements *)

(** Table [table] carries a column vindex named [name]. *)
Definition references (name : string) (table : Table) : Prop :=
  Exists (λ cv, cvName cv = name) (tColumnVindexes table).

#[global] Instance references_dec name table : Decision (references name table).
Proof. unfold references. apply _. Defined.

(** Every column vindex of every table names a vindex of the keyspace
    (invariants 2 and 3 of the data model). *)
Definition vindexesResolved (ksvs : KeyspaceVSchemaInfo) : Prop :=
  map_Forall (λ _ table,
      Forall (λ cv, is_Some (Vindexes ksvs !! cvName cv)) (tColumnVindexes table))
    (Tables ksvs).

#[global] Instance vindexesResolved_dec ksvs : Decision (vindexesResolved ksvs).
Proof. unfold vindexesResolved. apply _. Defined.

(** No table carries two column vindexes of the same name. *)
Definition uniqueNames (ksvs : KeyspaceVSchemaInfo) : Prop :=
  map_Forall (λ _ table, NoDup (cvName <$> tColumnVindexes table)) (Tables ksvs).

#[global] Instance uniqueNames_dec ksvs : Decision (uniqueNames ksvs).
Proof. unfold uniqueNames. apply _. Defined.

(** A keyspace that has a vindex is marked sharded. *)
Definition shardedIfVindexes (ksvs : KeyspaceVSchemaInfo) : Prop :=
  Vindexes ksvs ≠ ∅ → Sharded ksvs = true.

#[global] Instance shardedIfVindexes_dec ksvs : Decision (shardedIfVindexes ksvs).
Proof. unfold shardedIfVindexes. apply _. Defined.

(** A params mapping, nil read as empty. *)
Definition paramsMap (p : option (gmap string string)) : gmap string string :=
  default ∅ p.

(** The one error that is returned after a write: [AddColVindexDDLAction]
    with a type, for a vindex the keyspace does not have, on a table that
    already carries a column vindex of that name. *)
Definition lateError (alterVschema : AlterVschema) (ksvs : KeyspaceVSchemaInfo)
    (e : Error) : Prop :=
  Action alterVschema = AddColVindexDDLAction ∧
  SpecTypeNotEmpty alterVschema = true ∧
  Vindexes ksvs !! SpecName alterVschema = None ∧
  TableIsEmpty alterVschema = false ∧
  (∃ table, Tables ksvs !! TableName alterVschema = Some table ∧
            references (SpecName alterVschema) table) ∧
  e = ErrVindexAlreadyOnTable (SpecName alterVschema) (TableName alterVschema).

#[global] Instance lateError_dec alterVschema ksvs e :
  Decision (lateError alterVschema ksvs e).
Proof.
  unfold lateError.
  destruct (Tables ksvs !! TableName alterVschema) as [table|];
    [destruct (decide (references (SpecName alterVschema) table)) |].
  - destruct (decide (Action alterVschema = AddColVindexDDLAction ∧
                      SpecTypeNotEmpty alterVschema = true ∧
                      Vindexes ksvs !! SpecName alterVschema = None ∧
                      TableIsEmpty alterVschema = false ∧
                      e = ErrVindexAlreadyOnTable (SpecName alterVschema)
                            (TableName alterVschema)))
      as [(? & ? & ? & ? & ?) | Hno]; [left | right].
    + repeat split; eauto.
    + intros (? & ? & ? & ? & _ & ?). apply Hno. repeat split; done.
  - right. intros (_ & _ & _ & _ & (? & [= <-] & ?) & _). done.
  - right. intros (_ & _ & _ & _ & (? & [=] & _) & _).
Defined.

(** ** Sample inputs

    The keyspace of the scenarios: vindex [hash_vdx] of type [hash], and
    table [t1] routed by it on column [id]. *)

(** A statement as the parser builds it: its table name is empty exactly
    when no table is given, its type is empty exactly when none is given. *)
Definition vindexStatement (action : DDLAction) (tableName name : string)
    (type : option string) (columns : list string) : AlterVschema :=
  {| Action := action;
     TableIsEmpty := bool_decide (tableName = "");
     TableName := tableName;
     SpecName := name;
     SpecTypeNotEmpty := bool_decide (is_Some type);
     SpecType := default "" type;
     SpecOwner := "";
     SpecParams := Some ∅;
     VindexCols := columns;
     AutoIncColumn := "";
     AutoIncSequence := "" |}.

Definition tableStatement (action : DDLAction) (tableName : string) : AlterVschema :=
  vindexStatement action tableName "" None [].

Definition autoIncStatement (action : DDLAction) (tableName column sequence : string)
    : AlterVschema :=
  {| Action := action;
     TableIsEmpty := bool_decide (tableName = "");
     TableName := tableName;
     SpecName := "";
     SpecTypeNotEmpty := false;
     SpecType := "";
     SpecOwner := "";
     SpecParams := Some ∅;
     VindexCols := [];
     AutoIncColumn := column;
     AutoIncSequence := sequence |}.

Definition hashVindex : Vindex :=
  {| vType := "hash"; vParams := Some ∅; vOwner := "" |}.

Definition routedTable (ai : option AutoIncrement) : Table :=
  {| tType := "";
     tColumnVindexes := [{| cvName := "hash_vdx"; cvColumns := ["id"] |}];
     tAutoIncrement := ai |}.

(** Scenario 1: after [CreateVindex hash_vdx]. *)
Definition ksWithVindex : KeyspaceVSchemaInfo :=
  {| Name := "ks"; Sharded := true; Tables := ∅;
     Vindexes := {[ "hash_vdx" := hashVindex ]} |}.

(** Scenario 3: [t1] routed by [hash_vdx]. *)
Definition ksWithRoutedTable (ai : option AutoIncrement) : KeyspaceVSchemaInfo :=
  {| Name := "ks"; Sharded := true;
     Tables := {[ "t1" := routedTable ai ]};
     Vindexes := {[ "hash_vdx" := hashVindex ]} |}.

(** A stored schema with a dangling reference: [t1] names [hash_vdx], the
    keyspace has no vindex. *)
Definition ksDangling : KeyspaceVSchemaInfo :=
  {| Name := "ks"; Sharded := false;
     Tables := {[ "t1" := routedTable None ]};
     Vindexes := ∅ |}.

(** An unsharded keyspace with one plain table and one sequence table. *)
Definition ksUnsharded : KeyspaceVSchemaInfo :=
  {| Name := "ks"; Sharded := false;
     Tables := {[ "t" := emptyTable;
                  "s" := {| tType := "sequence"; tColumnVindexes := [];
                            tAutoIncrement := None |} ]};
     Vindexes := ∅ |}.

(** The keyspace of scenario 1 as protobuf decodes it: a vindex stored
    without params comes back with a nil [Params] map. *)
Definition ksDecoded : KeyspaceVSchemaInfo :=
  {| Name := "ks"; Sharded := true; Tables := ∅;
     Vindexes := {[ "hash_vdx" := {| vType := "hash"; vParams := None; vOwner := "" |} ]} |}.

(** ** Proof steps *)

(** Unfolding a handler down to matches on lookups. *)
Ltac unfold_ddl :=
  unfold applyDDL, createVindex, dropVindex, addVschemaTable, dropVschemaTable,
    addColVindex, resolveVindex, dropColVindex, addSequence, dropSequence,
    addAutoInc, dropAutoInc, objectAfter, errorOf, returned,
    when, setSharded, setTables, setVindexes,
    mbind, M_bind, bind, gets, fail, modify, mret, M_ret, ret in *;
  simpl in *.

Ltac split_ddl := repeat (case_match; simplify_eq/=); simplify_eq/=.

(** ** Facts about the loops *)

Lemma definedOn_true name cvs :
  definedOn name cvs = true ↔ ∃ cv, cv ∈ cvs ∧ cvName cv = name.
Proof.
  induction cvs as [|cv cvs IH]; simpl.
  - split; [done | intros (? & Hin & _); inversion Hin].
  - case_bool_decide as Hcv.
    + split; [intros _; exists cv; split; [left | done] | done].
    + rewrite IH. split.
      * intros (cv' & Hin & Hn). exists cv'. split; [by right | done].
      * intros (cv' & Hin & Hn). apply elem_of_cons in Hin as [-> | Hin]; [done |].
        by exists cv'.
Qed.

Lemma definedOn_false name cvs :
  definedOn name cvs = false ↔ ∀ cv, cv ∈ cvs → cvName cv ≠ name.
Proof.
  rewrite <- not_true_iff_false, definedOn_true. split.
  - intros Hno cv Hin Hn. apply Hno. by exists cv.
  - intros Hall (cv & Hin & Hn). by apply (Hall cv).
Qed.

Lemma definedOn_references name table :
  definedOn name (tColumnVindexes table) = true ↔ references name table.
Proof. unfold references. rewrite Exists_exists. apply definedOn_true. Qed.

Lemma indexOf_Some name cvs i :
  indexOf name cvs = Some i →
  (∃ cv, cvs !! i = Some cv ∧ cvName cv = name) ∧
  (∀ j cv, j < i → cvs !! j = Some cv → cvName cv ≠ name).
Proof.
  revert i. induction cvs as [|cv cvs IH]; intros i; simpl; [done |].
  case_bool_decide as Hcv.
  - intros [= <-]. split; [by exists cv | intros j ? Hj; lia].
  - destruct (indexOf name cvs) as [i'|] eqn:Hi; simpl; [| done].
    intros [= <-]. destruct (IH i' eq_refl) as [Hat Hbefore]. split; [done |].
    intros [|j] cv' Hj; simpl.
    + by intros [= <-].
    + apply Hbefore. lia.
Qed.

Lemma indexOf_None name cvs :
  indexOf name cvs = None ↔ ∀ cv, cv ∈ cvs → cvName cv ≠ name.
Proof.
  rewrite <- definedOn_false.
  induction cvs as [|cv cvs IH]; simpl; [done |].
  case_bool_decide; [done |].
  rewrite <- IH. destruct (indexOf name cvs); simpl; split; congruence.
Qed.

Lemma indexOf_is_Some name cvs :
  is_Some (indexOf name cvs) ↔ ∃ cv, cv ∈ cvs ∧ cvName cv = name.
Proof.
  rewrite <- definedOn_true, <- not_eq_None_Some, indexOf_None, <- definedOn_false.
  destruct (definedOn name cvs); split; congruence.
Qed.

Lemma stillDefinedOn_Some name tables tableName :
  stillDefinedOn name tables = Some tableName →
  ∃ table, (tableName, table) ∈ tables ∧ references name table.
Proof.
  induction tables as [|[tn t] tables IH]; simpl; [done |].
  destruct (definedOn name (tColumnVindexes t)) eqn:Hd.
  - intros [= <-]. exists t. split; [left | by apply definedOn_references].
  - intros H. destruct (IH H) as (t' & Hin & Href). exists t'. split; [by right | done].
Qed.

Lemma stillDefinedOn_None name tables :
  stillDefinedOn name tables = None ↔
  ∀ tableName table, (tableName, table) ∈ tables → ¬ references name table.
Proof.
  induction tables as [|[tn t] tables IH]; simpl.
  - split; [intros _ ? ? Hin; inversion Hin | done].
  - destruct (definedOn name (tColumnVindexes t)) eqn:Hd.
    + split; [done |]. intros Hall. exfalso.
      apply (Hall tn t); [left | by apply definedOn_references].
    + rewrite IH. split.
      * intros Hall tn' t' Hin. apply elem_of_cons in Hin as [[= -> ->] | Hin].
        -- rewrite <- definedOn_references. congruence.
        -- by apply (Hall tn' t').
      * intros Hall tn' t' Hin. apply (Hall tn' t'). by right.
Qed.

(** Whatever order [range] follows, it visits exactly the map's entries. *)
Lemma elem_of_rangeTables
    (rangeTables : gmap string Table → list (string * Table))
    (Hperm : ∀ m, rangeTables m ≡ₚ map_to_list m) m tableName table :
  (tableName, table) ∈ rangeTables m ↔ m !! tableName = Some table.
Proof. rewrite (Hperm m). apply elem_of_map_to_list. Qed.

(** ** The scenarios of the specification, run on the model *)

Example scenario1 :
  applyDDL map_to_list "ks"
    (vindexStatement CreateVindexDDLAction "" "hash_vdx" (Some "hash") [])
    (emptyVSchema "ks")
  = (ksWithVindex, inr tt).
Proof. vm_compute. reflexivity. Qed.

Example scenario2 :
  applyDDL map_to_list "ks"
    (vindexStatement CreateVindexDDLAction "" "hash_vdx" (Some "hash") [])
    ksWithVindex
  = (ksWithVindex, inl (ErrVindexAlreadyExists "hash_vdx" "ks")).
Proof. vm_compute. reflexivity. Qed.

Example scenario3 :
  applyDDL map_to_list "ks"
    (vindexStatement AddColVindexDDLAction "t1" "hash_vdx" None ["id"])
    ksWithVindex
  = (ksWithRoutedTable None, inr tt).
Proof. vm_compute. reflexivity. Qed.

Example scenario4 :
  applyDDL map_to_list "ks"
    (vindexStatement DropVindexDDLAction "" "hash_vdx" None [])
    (ksWithRoutedTable None)
  = (ksWithRoutedTable None, inl (ErrVindexStillDefined "hash_vdx" "t1")).
Proof. vm_compute. reflexivity. Qed.

Example scenario5 :
  applyDDL map_to_list "ks"
    (vindexStatement DropColVindexDDLAction "t1" "hash_vdx" None [])
    (ksWithRoutedTable None)
  = (ksWithVindex, inr tt).
Proof. vm_compute. reflexivity. Qed.

Example scenario6 :
  applyDDL map_to_list "ks"
    (vindexStatement DropVindexDDLAction "" "hash_vdx" None [])
    ksWithVindex
  = ({| Name := "ks"; Sharded := true; Tables := ∅; Vindexes := ∅ |}, inr tt).
Proof. vm_compute. reflexivity. Qed.

(** ** Errors and the object *)

Lemma applyDDL_error rangeTables ksName alterVschema ksvs ksvs' e :
  applyDDL rangeTables ksName alterVschema ksvs = (ksvs', inl e) →
  Name ksvs' = Name ksvs ∧ Tables ksvs' = Tables ksvs ∧
  (ksvs' = ksvs ∨ lateError alterVschema ksvs e).
Proof.
  intros Hrun. unfold_ddl. unfold lateError.
  destruct (Action alterVschema) eqn:Hact; split_ddl; try (by auto).
  all: split; [done |]; split; [done |]; right.
  all: repeat split; try done.
  all: destruct (Tables _ !! TableName alterVschema) as [table|]; [| done].
  all: exists table; split; [done | by apply definedOn_references].
Qed.

Lemma lateError_unresolved alterVschema ksvs e :
  lateError alterVschema ksvs e → ¬ vindexesResolved ksvs.
Proof.
  intros (_ & _ & Hnone & _ & (table & Htable & Href) & _) Hres.
  apply Exists_exists in Href as (cv & Hin & Hname).
  specialize (Hres _ _ Htable). simpl in Hres.
  rewrite Forall_forall in Hres. specialize (Hres cv Hin).
  rewrite Hname, Hnone in Hres. by destruct Hres.
Qed.

Lemma run_error rangeTables ksName alterVschema ksvs e :
  errorOf (applyDDL rangeTables ksName alterVschema ksvs) = Some e →
  applyDDL rangeTables ksName alterVschema ksvs
  = (objectAfter (applyDDL rangeTables ksName alterVschema ksvs), inl e).
Proof.
  unfold errorOf, objectAfter.
  destruct (applyDDL rangeTables ksName alterVschema ksvs) as [ksvs' [e' | []]];
    simpl; [by intros [= ->] | done].
Qed.

(** C1 (amended).  When the call returns an error, the tables mapping of
    the object is as it was before the call, and the whole object is as it
    was unless the error is the one returned after a write ([lateError]:
    an AddColumnVindex that supplies a type for a vindex the keyspace does
    not have, on a table that already carries a column vindex of that
    name).  On a schema in which every column vindex names an existing
    vindex, every error leaves the schema unchanged.  The AddColumnVindex
    call just described does return the already-defined-on-table error. *)
Theorem error_leaves_schema rangeTables ksName alterVschema ksvs :
  let r := applyDDL rangeTables ksName alterVschema ksvs in
  (∀ e, errorOf r = Some e →
     Tables (objectAfter r) = Tables ksvs ∧
     (¬ lateError alterVschema ksvs e → objectAfter r = ksvs) ∧
     (vindexesResolved ksvs → objectAfter r = ksvs)) ∧
  (∀ e, lateError alterVschema ksvs e → errorOf r = Some e).
Proof.
  intros r. subst r. split.
  - intros e He. apply run_error in He as Hrun.
    destruct (applyDDL_error _ _ _ _ _ _ Hrun) as (_ & Htables & Hcases).
    split; [done |]. split.
    + intros Hnot. by destruct Hcases.
    + intros Hres. destruct Hcases as [-> | Hlate]; [done |].
      by destruct (lateError_unresolved _ _ _ Hlate).
  - intros e (Hact & Htype & Hnone & Hname & (table & Htable & Href) & ->).
    apply definedOn_references in Href.
    unfold_ddl. rewrite Hact, Htype, Hnone, Hname, Htable. simpl.
    rewrite Href. by destruct (Nat.eqb (size (Vindexes ksvs)) 0).
Qed.

(** Scenario 2: creating [hash_vdx] a second time fails and the schema of
    scenario 1 is unchanged. *)
Lemma error_leaves_schema_witness :
  vindexesResolved ksWithVindex ∧
  objectAfter (applyDDL map_to_list "ks"
    (vindexStatement CreateVindexDDLAction "" "hash_vdx" (Some "hash") [])
    ksWithVindex) = ksWithVindex.
Proof.
  assert (Hres : vindexesResolved ksWithVindex).
  { apply (bool_decide_eq_true_1 (vindexesResolved ksWithVindex)).
    vm_compute. reflexivity. }
  split; [exact Hres |].
  refine (proj2 (proj2 (proj1 (error_leaves_schema map_to_list "ks"
    (vindexStatement CreateVindexDDLAction "" "hash_vdx" (Some "hash") [])
    ksWithVindex) (ErrVindexAlreadyExists "hash_vdx" "ks") _)) Hres).
  vm_compute. reflexivity.
Defined.

(** C1, as stated, fails: on the schema with a dangling reference,
    [AddColumnVindex t1 hash_vdx USING hash] returns the
    already-defined-on-table error, and the object then holds the new
    vindex and is marked sharded. *)
Lemma error_after_write_counterexample :
  let r := applyDDL map_to_list "ks"
             (vindexStatement AddColVindexDDLAction "t1" "hash_vdx" (Some "hash") ["id"])
             ksDangling in
  errorOf r = Some (ErrVindexAlreadyOnTable "hash_vdx" "t1") ∧
  Vindexes ksDangling !! "hash_vdx" = None ∧
  Vindexes (objectAfter r) !! "hash_vdx" = Some hashVindex ∧
  Sharded ksDangling = false ∧
  Sharded (objectAfter r) = true.
Proof. vm_compute. repeat split; reflexivity. Qed.

(** ** The sharded guard *)

(** C2 (amended).  On a keyspace whose sharded flag is true, AddTable,
    AddSequence and DropSequence fail with the unsupported-on-sharded error
    and leave the object as it was, whether or not the named table is in
    the tables mapping.  DropTable has no such guard: on a sharded keyspace
    it fails with the does-not-contain-table error when the table is absent
    and removes the table when it is present. *)
Theorem sharded_guard rangeTables ksName alterVschema ksvs :
  Sharded ksvs = true →
  let r := applyDDL rangeTables ksName alterVschema ksvs in
  (Action alterVschema = AddVschemaTableDDLAction →
     r = (ksvs, inl (ErrUnsupportedOnSharded OpAddVschemaTable ksName))) ∧
  (Action alterVschema = AddSequenceDDLAction →
     r = (ksvs, inl (ErrUnsupportedOnSharded OpAddSequenceTable ksName))) ∧
  (Action alterVschema = DropSequenceDDLAction →
     r = (ksvs, inl (ErrUnsupportedOnSharded OpDropSequenceTable ksName))) ∧
  (Action alterVschema = DropVschemaTableDDLAction →
     match Tables ksvs !! TableName alterVschema with
     | None => r = (ksvs, inl (ErrDoesNotContainTable (TableName alterVschema) ksName))
     | Some _ =>
         r = ({| Name := Name ksvs; Sharded := true;
                 Tables := delete (TableName alterVschema) (Tables ksvs);
                 Vindexes := Vindexes ksvs |}, inr tt)
     end).
Proof.
  intros Hsharded. unfold_ddl.
  repeat split; intros ->; rewrite ?Hsharded; try done.
  destruct (Tables ksvs !! TableName alterVschema); by rewrite <- ?Hsharded.
Qed.

(** [ADD SEQUENCE t1] on the sharded keyspace of scenario 3, where [t1]
    exists: the sharded guard answers before the table is looked up. *)
Lemma sharded_guard_witness :
  Sharded (ksWithRoutedTable None) = true ∧
  applyDDL map_to_list "ks" (tableStatement AddSequenceDDLAction "t1")
    (ksWithRoutedTable None)
  = (ksWithRoutedTable None, inl (ErrUnsupportedOnSharded OpAddSequenceTable "ks")).
Proof.
  split; [reflexivity |].
  refine (proj1 (proj2 (sharded_guard map_to_list "ks"
    (tableStatement AddSequenceDDLAction "t1") (ksWithRoutedTable None) _)) _);
    reflexivity.
Defined.

(** C2, as stated, fails for DropTable: on the sharded keyspace of
    scenario 3, [DROP TABLE t1] returns no error and removes [t1]. *)
Lemma dropTable_sharded_counterexample :
  let r := applyDDL map_to_list "ks" (tableStatement DropVschemaTableDDLAction "t1")
             (ksWithRoutedTable None) in
  Sharded (ksWithRoutedTable None) = true ∧
  errorOf r = None ∧
  Tables (ksWithRoutedTable None) !! "t1" = Some (routedTable None) ∧
  Tables (objectAfter r) !! "t1" = None.
Proof. vm_compute. repeat split; reflexivity. Qed.

(** ** What a successful call did, action by action *)

Section Success.

Context (rangeTables : gmap string Table → list (string * Table)).
Context (ksName : string) (alterVschema : AlterVschema).
Context (ksvs ksvs' : KeyspaceVSchemaInfo).
Hypothesis Hrun : applyDDL rangeTables ksName alterVschema ksvs = (ksvs', inr tt).

Lemma createVindex_success :
  Action alterVschema = CreateVindexDDLAction →
  Vindexes ksvs !! SpecName alterVschema = None ∧
  Name ksvs' = Name ksvs ∧
  Tables ksvs' = Tables ksvs ∧
  Vindexes ksvs' = <[SpecName alterVschema := specVindex alterVschema]> (Vindexes ksvs) ∧
  Sharded ksvs' = (if Nat.eqb (size (Vindexes ksvs)) 0 then true else Sharded ksvs).
Proof. intros Hact. unfold_ddl. rewrite Hact in Hrun. by split_ddl. Qed.

Lemma dropVindex_success :
  Action alterVschema = DropVindexDDLAction →
  is_Some (Vindexes ksvs !! SpecName alterVschema) ∧
  stillDefinedOn (SpecName alterVschema) (rangeTables (Tables ksvs)) = None ∧
  ksvs' = withVindexes ksvs (delete (SpecName alterVschema) (Vindexes ksvs)).
Proof. intros Hact. unfold_ddl. rewrite Hact in Hrun. by split_ddl. Qed.

Lemma addVschemaTable_success :
  Action alterVschema = AddVschemaTableDDLAction →
  Sharded ksvs = false ∧
  Tables ksvs !! TableName alterVschema = None ∧
  ksvs' = withTables ksvs (<[TableName alterVschema := emptyTable]> (Tables ksvs)).
Proof. intros Hact. unfold_ddl. rewrite Hact in Hrun. by split_ddl. Qed.

Lemma dropVschemaTable_success :
  Action alterVschema = DropVschemaTableDDLAction →
  is_Some (Tables ksvs !! TableName alterVschema) ∧
  ksvs' = withTables ksvs (delete (TableName alterVschema) (Tables ksvs)).
Proof. intros Hact. unfold_ddl. rewrite Hact in Hrun. by split_ddl. Qed.

Lemma addColVindex_success :
  Action alterVschema = AddColVindexDDLAction →
  let tableName := if TableIsEmpty alterVschema then "" else TableName alterVschema in
  let table := default emptyTable
                 (if TableIsEmpty alterVschema then None
                  else Tables ksvs !! TableName alterVschema) in
  definedOn (SpecName alterVschema) (tColumnVindexes table) = false ∧
  Name ksvs' = Name ksvs ∧
  Tables ksvs' =
    <[tableName := withColumnVindexes table
                     (tColumnVindexes table ++ [specColumnVindex alterVschema])]>
      (Tables ksvs) ∧
  ((SpecTypeNotEmpty alterVschema = true ∧
    Vindexes ksvs !! SpecName alterVschema = None ∧
    Vindexes ksvs' = <[SpecName alterVschema := specVindex alterVschema]> (Vindexes ksvs) ∧
    Sharded ksvs' = (if Nat.eqb (size (Vindexes ksvs)) 0 then true else Sharded ksvs)) ∨
   (is_Some (Vindexes ksvs !! SpecName alterVschema) ∧
    Vindexes ksvs' = Vindexes ksvs ∧
    Sharded ksvs' = Sharded ksvs)).
Proof.
  intros Hact. unfold_ddl. rewrite Hact in Hrun.
  split_ddl; repeat split; auto 10.
Qed.

Lemma dropColVindex_success :
  Action alterVschema = DropColVindexDDLAction →
  ∃ table i,
    TableIsEmpty alterVschema = false ∧
    Tables ksvs !! TableName alterVschema = Some table ∧
    indexOf (SpecName alterVschema) (tColumnVindexes table) = Some i ∧
    ksvs' = withTables ksvs
      (match removeAt i (tColumnVindexes table) with
       | [] => delete (TableName alterVschema) (Tables ksvs)
       | rest => <[TableName alterVschema := withColumnVindexes table rest]> (Tables ksvs)
       end).
Proof.
  intros Hact. unfold_ddl. rewrite Hact in Hrun.
  split_ddl; eexists _, _; repeat split; try done.
  all: unfold withTables; f_equal.
  all: destruct (removeAt _ _) eqn:Hrest; simplify_eq/=; try done.
  by rewrite delete_insert_eq.
Qed.

Lemma addSequence_success :
  Action alterVschema = AddSequenceDDLAction →
  Sharded ksvs = false ∧
  Tables ksvs !! TableName alterVschema = None ∧
  ksvs' = withTables ksvs
    (<[TableName alterVschema :=
         {| tType := "sequence"; tColumnVindexes := []; tAutoIncrement := None |}]>
       (Tables ksvs)).
Proof. intros Hact. unfold_ddl. rewrite Hact in Hrun. by split_ddl. Qed.

Lemma dropSequence_success :
  Action alterVschema = DropSequenceDDLAction →
  Sharded ksvs = false ∧
  is_Some (Tables ksvs !! TableName alterVschema) ∧
  ksvs' = withTables ksvs (delete (TableName alterVschema) (Tables ksvs)).
Proof. intros Hact. unfold_ddl. rewrite Hact in Hrun. by split_ddl. Qed.

Lemma addAutoInc_success :
  Action alterVschema = AddAutoIncDDLAction →
  ∃ table,
    Tables ksvs !! TableName alterVschema = Some table ∧
    tAutoIncrement table = None ∧
    ksvs' = withTables ksvs
      (<[TableName alterVschema :=
           withAutoIncrement table (Some (specAutoIncrement alterVschema))]>
         (Tables ksvs)).
Proof. intros Hact. unfold_ddl. rewrite Hact in Hrun. split_ddl. eauto. Qed.

Lemma dropAutoInc_success :
  Action alterVschema = DropAutoIncDDLAction →
  ∃ table,
    Tables ksvs !! TableName alterVschema = Some table ∧
    is_Some (tAutoIncrement table) ∧
    ksvs' = withTables ksvs
      (<[TableName alterVschema := withAutoIncrement table None]> (Tables ksvs)).
Proof. intros Hact. unfold_ddl. rewrite Hact in Hrun. split_ddl. eauto. Qed.

Lemma otherAction_fails toString :
  Action alterVschema = OtherDDLAction toString → False.
Proof. intros Hact. unfold_ddl. rewrite Hact in Hrun. by split_ddl. Qed.

End Success.

(** ** Tables without column vindexes *)

Lemma indexOf_singleton name cv i :
  indexOf name [cv] = Some i → removeAt i [cv] = [].
Proof. simpl. case_bool_decide; [by intros [= <-] | done]. Qed.

(** C3 (amended).  A successful DropColumnVindex that removes the only
    column vindex of a table deletes the Table record, whatever else the
    record holds, an AutoIncrement included.  After any successful call, a
    table with no column vindexes either had none before the call or was
    created by this AddTable or AddSequence; and a table created by
    AddTable or AddSequence is in the result with zero column vindexes. *)
Theorem empty_tables rangeTables ksName alterVschema ksvs ksvs' :
  applyDDL rangeTables ksName alterVschema ksvs = (ksvs', inr tt) →
  (Action alterVschema = DropColVindexDDLAction →
   ∀ table cv,
     Tables ksvs !! TableName alterVschema = Some table →
     tColumnVindexes table = [cv] →
     Tables ksvs' = delete (TableName alterVschema) (Tables ksvs)) ∧
  (∀ n table',
     Tables ksvs' !! n = Some table' →
     tColumnVindexes table' = [] →
     (∃ table, Tables ksvs !! n = Some table ∧ tColumnVindexes table = []) ∨
     ((Action alterVschema = AddVschemaTableDDLAction ∨
       Action alterVschema = AddSequenceDDLAction) ∧ n = TableName alterVschema)) ∧
  (Action alterVschema = AddVschemaTableDDLAction →
     Tables ksvs' !! TableName alterVschema = Some emptyTable) ∧
  (Action alterVschema = AddSequenceDDLAction →
     Tables ksvs' !! TableName alterVschema
     = Some {| tType := "sequence"; tColumnVindexes := []; tAutoIncrement := None |}).
Proof.
  intros Hrun. repeat split.
  - intros Hact table cv Htable Hcvs.
    destruct (dropColVindex_success _ _ _ _ _ Hrun Hact)
      as (table0 & i & _ & Htable0 & Hi & ->).
    simplify_eq/=. rewrite Hcvs in Hi |- *.
    by rewrite (indexOf_singleton _ _ _ Hi).
  - intros n table' Hn Hcvs.
    destruct (Action alterVschema) eqn:Hact.
    + destruct (createVindex_success _ _ _ _ _ Hrun Hact) as (_ & _ & HT & _).
      rewrite HT in Hn. left. by exists table'.
    + destruct (dropVindex_success _ _ _ _ _ Hrun Hact) as (_ & _ & ->).
      left. by exists table'.
    + destruct (addVschemaTable_success _ _ _ _ _ Hrun Hact) as (_ & _ & ->).
      simpl in Hn. destruct (decide (n = TableName alterVschema)) as [-> | Hne].
      * right. auto.
      * rewrite lookup_insert_ne in Hn by done. left. by exists table'.
    + destruct (dropVschemaTable_success _ _ _ _ _ Hrun Hact) as (_ & ->).
      simpl in Hn. apply lookup_delete_Some in Hn as [_ Hn]. left. by exists table'.
    + destruct (addColVindex_success _ _ _ _ _ Hrun Hact) as (_ & _ & HT & _).
      rewrite HT in Hn. apply lookup_insert_Some in Hn as [[_ <-] | [_ Hn]].
      * simpl in Hcvs. by apply app_eq_nil in Hcvs as [_ ?].
      * left. by exists table'.
    + destruct (dropColVindex_success _ _ _ _ _ Hrun Hact)
        as (table & i & _ & Htable & Hi & ->).
      simpl in Hn. destruct (removeAt i (tColumnVindexes table)) eqn:Hrest.
      * apply lookup_delete_Some in Hn as [_ Hn]. left. by exists table'.
      * apply lookup_insert_Some in Hn as [[_ <-] | [_ Hn]]; [done |].
        left. by exists table'.
    + destruct (addSequence_success _ _ _ _ _ Hrun Hact) as (_ & _ & ->).
      simpl in Hn. destruct (decide (n = TableName alterVschema)) as [-> | Hne].
      * right. auto.
      * rewrite lookup_insert_ne in Hn by done. left. by exists table'.
    + destruct (dropSequence_success _ _ _ _ _ Hrun Hact) as (_ & _ & ->).
      simpl in Hn. apply lookup_delete_Some in Hn as [_ Hn]. left. by exists table'.
    + destruct (addAutoInc_success _ _ _ _ _ Hrun Hact) as (table & Htable & _ & ->).
      simpl in Hn. apply lookup_insert_Some in Hn as [[<- <-] | [_ Hn]].
      * left. by exists table.
      * left. by exists table'.
    + destruct (dropAutoInc_success _ _ _ _ _ Hrun Hact) as (table & Htable & _ & ->).
      simpl in Hn. apply lookup_insert_Some in Hn as [[<- <-] | [_ Hn]].
      * left. by exists table.
      * left. by exists table'.
    + destruct (otherAction_fails _ _ _ _ _ Hrun _ Hact).
  - intros Hact.
    destruct (addVschemaTable_success _ _ _ _ _ Hrun Hact) as (_ & _ & ->).
    apply lookup_insert_eq.
  - intros Hact.
    destruct (addSequence_success _ _ _ _ _ Hrun Hact) as (_ & _ & ->).
    apply lookup_insert_eq.
Qed.

(** [t1] holds its only column vindex and an AutoIncrement; dropping the
    column vindex deletes [t1]. *)
Lemma empty_tables_witness :
  let ksvs := ksWithRoutedTable (Some {| aiColumn := "id"; aiSequence := "seq" |}) in
  let ksvs' := objectAfter (applyDDL map_to_list "ks"
                 (vindexStatement DropColVindexDDLAction "t1" "hash_vdx" None []) ksvs) in
  Tables ksvs' = delete "t1" (Tables ksvs).
Proof.
  refine (proj1 (empty_tables map_to_list "ks"
    (vindexStatement DropColVindexDDLAction "t1" "hash_vdx" None [])
    (ksWithRoutedTable (Some {| aiColumn := "id"; aiSequence := "seq" |})) _ _)
    _ (routedTable (Some {| aiColumn := "id"; aiSequence := "seq" |}))
    {| cvName := "hash_vdx"; cvColumns := ["id"] |} _ _).
  - vm_compute. reflexivity.
  - reflexivity.
  - vm_compute. reflexivity.
  - reflexivity.
Defined.

(** C3, as stated, fails: [t1] still holds an AutoIncrement when its last
    column vindex is removed, and the Table record is deleted all the
    same. *)
Lemma autoIncrement_table_deleted_counterexample :
  let ai := {| aiColumn := "id"; aiSequence := "seq" |} in
  let r := applyDDL map_to_list "ks"
             (vindexStatement DropColVindexDDLAction "t1" "hash_vdx" None [])
             (ksWithRoutedTable (Some ai)) in
  (tAutoIncrement <$> Tables (ksWithRoutedTable (Some ai)) !! "t1") = Some (Some ai) ∧
  errorOf r = None ∧
  Tables (objectAfter r) !! "t1" = None.
Proof. vm_compute. repeat split; reflexivity. Qed.

(** ** The sharded flag *)

Lemma run_success rangeTables ksName alterVschema ksvs :
  errorOf (applyDDL rangeTables ksName alterVschema ksvs) = None →
  applyDDL rangeTables ksName alterVschema ksvs
  = (objectAfter (applyDDL rangeTables ksName alterVschema ksvs), inr tt).
Proof.
  unfold errorOf, objectAfter.
  destruct (applyDDL rangeTables ksName alterVschema ksvs) as [ksvs' [e | []]]; done.
Qed.

Lemma sharded_never_cleared rangeTables ksName alterVschema ksvs :
  Sharded ksvs = true →
  Sharded (objectAfter (applyDDL rangeTables ksName alterVschema ksvs)) = true.
Proof.
  intros Hsharded. unfold_ddl.
  destruct (Action alterVschema); split_ddl; done.
Qed.

Lemma sharded_kept_with_vindexes rangeTables ksName alterVschema ksvs ksvs' :
  applyDDL rangeTables ksName alterVschema ksvs = (ksvs', inr tt) →
  Vindexes ksvs ≠ ∅ →
  Sharded ksvs' = Sharded ksvs.
Proof.
  intros Hrun Hne.
  assert (Hsize : Nat.eqb (size (Vindexes ksvs)) 0 = false).
  { apply Nat.eqb_neq. by rewrite map_size_empty_iff. }
  destruct (Action alterVschema) eqn:Hact.
  - destruct (createVindex_success _ _ _ _ _ Hrun Hact) as (_ & _ & _ & _ & ->).
    by rewrite Hsize.
  - by destruct (dropVindex_success _ _ _ _ _ Hrun Hact) as (_ & _ & ->).
  - by destruct (addVschemaTable_success _ _ _ _ _ Hrun Hact) as (_ & _ & ->).
  - by destruct (dropVschemaTable_success _ _ _ _ _ Hrun Hact) as (_ & ->).
  - destruct (addColVindex_success _ _ _ _ _ Hrun Hact)
      as (_ & _ & _ & [(_ & _ & _ & ->) | (_ & _ & ->)]); [by rewrite Hsize | done].
  - by destruct (dropColVindex_success _ _ _ _ _ Hrun Hact) as (? & ? & _ & _ & _ & ->).
  - by destruct (addSequence_success _ _ _ _ _ Hrun Hact) as (_ & _ & ->).
  - by destruct (dropSequence_success _ _ _ _ _ Hrun Hact) as (_ & _ & ->).
  - by destruct (addAutoInc_success _ _ _ _ _ Hrun Hact) as (? & _ & _ & ->).
  - by destruct (dropAutoInc_success _ _ _ _ _ Hrun Hact) as (? & _ & _ & ->).
  - destruct (otherAction_fails _ _ _ _ _ Hrun _ Hact).
Qed.

(** C4.  With no vindex in the keyspace, a successful CreateVindex, or a
    successful AddColumnVindex that creates its vindex, leaves the sharded
    flag true.  With a vindex in the keyspace, no successful action changes
    the flag.  No call, successful or not, turns the flag from true to
    false, the drop of the last vindex included. *)
Theorem sharded_flag rangeTables ksName alterVschema ksvs :
  let r := applyDDL rangeTables ksName alterVschema ksvs in
  (Vindexes ksvs = ∅ →
   errorOf r = None →
   Action alterVschema = CreateVindexDDLAction ∨
   (Action alterVschema = AddColVindexDDLAction ∧ SpecTypeNotEmpty alterVschema = true) →
   Sharded (objectAfter r) = true ∧
   Vindexes (objectAfter r) = {[ SpecName alterVschema := specVindex alterVschema ]}) ∧
  (Vindexes ksvs ≠ ∅ →
   errorOf r = None →
   Sharded (objectAfter r) = Sharded ksvs) ∧
  (Sharded ksvs = true → Sharded (objectAfter r) = true).
Proof.
  intros r. subst r. split; [| split].
  - intros Hempty Hok Hcreates. apply run_success in Hok as Hrun.
    destruct Hcreates as [Hact | [Hact Htype]].
    + destruct (createVindex_success _ _ _ _ _ Hrun Hact) as (_ & _ & _ & -> & ->).
      by rewrite Hempty.
    + destruct (addColVindex_success _ _ _ _ _ Hrun Hact)
        as (_ & _ & _ & [(_ & _ & -> & ->) | (Hsome & _)]); [by rewrite Hempty |].
      rewrite Hempty, lookup_empty in Hsome. by destruct Hsome.
  - intros Hne Hok. apply run_success in Hok.
    by apply (sharded_kept_with_vindexes _ _ _ _ _ Hok).
  - apply sharded_never_cleared.
Qed.

(** Scenario 1: the first vindex of an empty keyspace marks it sharded;
    scenario 6: dropping the last vindex leaves it sharded. *)
Lemma sharded_flag_witness :
  Sharded (objectAfter (applyDDL map_to_list "ks"
    (vindexStatement CreateVindexDDLAction "" "hash_vdx" (Some "hash") [])
    (emptyVSchema "ks"))) = true ∧
  Sharded (objectAfter (applyDDL map_to_list "ks"
    (vindexStatement DropVindexDDLAction "" "hash_vdx" None [])
    ksWithVindex)) = true.
Proof.
  split.
  - refine (proj1 (proj1 (sharded_flag map_to_list "ks"
      (vindexStatement CreateVindexDDLAction "" "hash_vdx" (Some "hash") [])
      (emptyVSchema "ks")) _ _ _)).
    + reflexivity.
    + vm_compute. reflexivity.
    + left. reflexivity.
  - refine (proj2 (proj2 (sharded_flag map_to_list "ks"
      (vindexStatement DropVindexDDLAction "" "hash_vdx" None [])
      ksWithVindex)) _).
    reflexivity.
Defined.

(** ** DropVindex *)

(** C5.  DropVindex succeeds exactly when the vindex is in the vindexes
    mapping and no table carries a column vindex of that name.  An absent
    vindex gives the does-not-exist error (this check comes first); a
    present vindex that some table references gives the still-defined
    error naming a table that references it, whichever order the tables
    are visited in; on success the result is the schema with exactly that
    entry removed from the vindexes mapping. *)
Theorem dropVindex_spec (rangeTables : gmap string Table → list (string * Table))
    ksName alterVschema ksvs :
  (∀ m, rangeTables m ≡ₚ map_to_list m) →
  Action alterVschema = DropVindexDDLAction →
  let name := SpecName alterVschema in
  let r := applyDDL rangeTables ksName alterVschema ksvs in
  (errorOf r = None ↔
     is_Some (Vindexes ksvs !! name) ∧
     ∀ tableName table, Tables ksvs !! tableName = Some table → ¬ references name table) ∧
  (Vindexes ksvs !! name = None →
     r = (ksvs, inl (ErrVindexDoesNotExists name ksName))) ∧
  (is_Some (Vindexes ksvs !! name) →
   (∃ tableName table, Tables ksvs !! tableName = Some table ∧ references name table) →
   ∃ tableName table,
     Tables ksvs !! tableName = Some table ∧ references name table ∧
     r = (ksvs, inl (ErrVindexStillDefined name tableName))) ∧
  (errorOf r = None →
     objectAfter r = withVindexes ksvs (delete name (Vindexes ksvs))).
Proof.
  intros Hperm Hact name r. subst name r. unfold_ddl. rewrite Hact.
  destruct (Vindexes ksvs !! SpecName alterVschema) as [vindex|] eqn:Hvindex; simpl.
  - destruct (stillDefinedOn (SpecName alterVschema) (rangeTables (Tables ksvs)))
      as [tableName|] eqn:Hscan; simpl.
    + apply stillDefinedOn_Some in Hscan as (table & Hin & Href).
      apply (elem_of_rangeTables _ Hperm) in Hin.
      repeat split; try done.
      * intros [_ Hnone]. by destruct (Hnone _ _ Hin).
      * intros _ _. by exists tableName, table.
    + rewrite stillDefinedOn_None in Hscan.
      repeat split; try done.
      * intros tableName table Hin. apply (Hscan tableName table).
        by apply (elem_of_rangeTables _ Hperm).
      * intros _ (tableName & table & Hin & Href).
        apply (elem_of_rangeTables _ Hperm) in Hin. by destruct (Hscan _ _ Hin).
  - repeat split; try done.
    all: try (by intros [[? ?] _]).
    all: try (by intros [? ?]).
Qed.

(** Scenario 4: [hash_vdx] is still on [t1]; scenario 6: once [t1] is
    gone the drop succeeds and leaves no vindex. *)
Lemma dropVindex_spec_witness :
  (∃ tableName table,
     Tables (ksWithRoutedTable None) !! tableName = Some table ∧
     references "hash_vdx" table ∧
     applyDDL map_to_list "ks" (vindexStatement DropVindexDDLAction "" "hash_vdx" None [])
       (ksWithRoutedTable None)
     = (ksWithRoutedTable None, inl (ErrVindexStillDefined "hash_vdx" tableName))) ∧
  objectAfter (applyDDL map_to_list "ks"
    (vindexStatement DropVindexDDLAction "" "hash_vdx" None []) ksWithVindex)
  = withVindexes ksWithVindex (delete "hash_vdx" (Vindexes ksWithVindex)).
Proof.
  split.
  - refine (proj1 (proj2 (proj2 (dropVindex_spec map_to_list "ks"
      (vindexStatement DropVindexDDLAction "" "hash_vdx" None [])
      (ksWithRoutedTable None) _ _))) _ _).
    + intros m. reflexivity.
    + reflexivity.
    + exists hashVindex. reflexivity.
    + exists "t1", (routedTable None). split; [reflexivity |].
      left. reflexivity.
  - refine (proj2 (proj2 (proj2 (dropVindex_spec map_to_list "ks"
      (vindexStatement DropVindexDDLAction "" "hash_vdx" None [])
      ksWithVindex _ _))) _).
    + intros m. reflexivity.
    + reflexivity.
    + vm_compute. reflexivity.
Defined.

(** ** The params comparison of AddColumnVindex *)

Lemma lenParams_zero p : Nat.eqb (lenParams p) 0 = true ↔ paramsMap p = ∅.
Proof.
  rewrite Nat.eqb_eq. destruct p as [m|]; simpl; [apply map_size_empty_iff | done].
Qed.

(** Line 150 lets the statement through exactly when the two mappings,
    nil read as empty, are the same mapping. *)
Lemma paramsDiffer_false defined requested :
  paramsDiffer defined requested = false ↔ paramsMap defined = paramsMap requested.
Proof.
  unfold paramsDiffer.
  rewrite andb_false_iff, orb_false_iff, !negb_false_iff, !lenParams_zero.
  rewrite bool_decide_eq_true. split.
  - intros [[-> ->] | ->]; done.
  - intros Heq. destruct defined as [m1|], requested as [m2|]; simpl in *; subst; auto.
Qed.

Lemma paramsDiffer_true defined requested :
  paramsDiffer defined requested = true ↔ paramsMap defined ≠ paramsMap requested.
Proof. rewrite <- paramsDiffer_false. destruct (paramsDiffer _ _); split; congruence. Qed.

(** The merge case of lines 143-152 as one equation. *)
Lemma merge_case rangeTables ksName alterVschema ksvs vindex :
  Action alterVschema = AddColVindexDDLAction →
  SpecTypeNotEmpty alterVschema = true →
  Vindexes ksvs !! SpecName alterVschema = Some vindex →
  let name := SpecName alterVschema in
  let r := applyDDL rangeTables ksName alterVschema ksvs in
  if negb (bool_decide (vType vindex = SpecType alterVschema)) then
    r = (ksvs, inl (ErrVindexType name (vType vindex) (SpecType alterVschema)))
  else if negb (bool_decide (vOwner vindex = SpecOwner alterVschema)) then
    r = (ksvs, inl (ErrVindexOwner name (vOwner vindex) (SpecOwner alterVschema)))
  else if paramsDiffer (vParams vindex) (SpecParams alterVschema) then
    r = (ksvs, inl (ErrVindexParams name))
  else errorOf r ≠ Some (ErrVindexParams name).
Proof.
  intros Hact Htype Hvindex. unfold_ddl. rewrite Hact, Htype, Hvindex.
  repeat (case_match; simplify_eq/=; try done).
Qed.

(** C6.  In the merge case of AddColumnVindex (a type is supplied and the
    vindex exists), the params error is returned exactly when type and
    owner agree and the two params mappings, a nil mapping read as the
    empty one, differ at some key; the comparison is on keys and values
    only.  Whenever the mappings differ at a key the call fails; when both
    have size zero, nil or not, the params error is not returned. *)
Theorem params_comparison rangeTables ksName alterVschema ksvs vindex :
  Action alterVschema = AddColVindexDDLAction →
  SpecTypeNotEmpty alterVschema = true →
  Vindexes ksvs !! SpecName alterVschema = Some vindex →
  let defined := paramsMap (vParams vindex) in
  let requested := paramsMap (SpecParams alterVschema) in
  let r := applyDDL rangeTables ksName alterVschema ksvs in
  (errorOf r = Some (ErrVindexParams (SpecName alterVschema)) ↔
     vType vindex = SpecType alterVschema ∧
     vOwner vindex = SpecOwner alterVschema ∧
     ¬ (∀ k, defined !! k = requested !! k)) ∧
  ((∃ k, defined !! k ≠ requested !! k) → errorOf r ≠ None) ∧
  (lenParams (vParams vindex) = 0 → lenParams (SpecParams alterVschema) = 0 →
     errorOf r ≠ Some (ErrVindexParams (SpecName alterVschema))).
Proof.
  intros Hact Htype Hvindex defined requested r. subst defined requested r.
  pose proof (merge_case rangeTables ksName _ _ _ Hact Htype Hvindex) as Hmerge.
  simpl in Hmerge. rewrite <- map_eq_iff.
  destruct (bool_decide (vType vindex = SpecType alterVschema)) eqn:Ht; simpl in Hmerge.
  2:{ rewrite Hmerge. apply bool_decide_eq_false in Ht. unfold errorOf; simpl.
      repeat split; try done. by intros [? _]. }
  destruct (bool_decide (vOwner vindex = SpecOwner alterVschema)) eqn:Ho; simpl in Hmerge.
  2:{ rewrite Hmerge. apply bool_decide_eq_false in Ho. unfold errorOf; simpl.
      repeat split; try done. by intros (_ & ? & _). }
  apply bool_decide_eq_true in Ht, Ho.
  destruct (paramsDiffer (vParams vindex) (SpecParams alterVschema)) eqn:Hp.
  - rewrite Hmerge. unfold errorOf; simpl. apply paramsDiffer_true in Hp.
    repeat split; try done.
    intros H1 H2 _. apply Hp.
    apply Nat.eqb_eq, lenParams_zero in H1, H2. congruence.
  - apply paramsDiffer_false in Hp. repeat split; try done.
    + by intros (_ & _ & Hdiff).
    + intros [k Hk]. by rewrite Hp in Hk.
Qed.

(** The stored vindex has a nil params map and the statement an empty one:
    the statement is accepted and [t1] gets its column vindex. *)
Lemma params_comparison_witness :
  vParams <$> (Vindexes ksDecoded !! "hash_vdx") = Some None ∧
  SpecParams (vindexStatement AddColVindexDDLAction "t1" "hash_vdx" (Some "hash") ["id"])
    = Some ∅ ∧
  errorOf (applyDDL map_to_list "ks"
    (vindexStatement AddColVindexDDLAction "t1" "hash_vdx" (Some "hash") ["id"])
    ksDecoded) ≠ Some (ErrVindexParams "hash_vdx").
Proof.
  split; [reflexivity |]. split; [reflexivity |].
  refine (proj2 (proj2 (params_comparison map_to_list "ks"
    (vindexStatement AddColVindexDDLAction "t1" "hash_vdx" (Some "hash") ["id"])
    ksDecoded {| vType := "hash"; vParams := None; vOwner := "" |} _ _ _)) _ _);
    reflexivity.
Defined.

(** ** DropColumnVindex *)

Lemma removeAt_delete i (cvs : list ColumnVindex) : removeAt i cvs = delete i cvs.
Proof. unfold removeAt. by rewrite delete_take_drop. Qed.

(** C7.  For a statement that names a table: DropColumnVindex fails with
    the table-not-defined error when the table is absent from the tables
    mapping, and with the vindex-not-defined-in-table error when the table
    has no column vindex of that name.  Otherwise it succeeds: the entry
    removed is the first of the sequence that bears the name, and the
    Table record is deleted when the sequence becomes empty and otherwise
    kept with the shorter sequence. *)
Theorem dropColVindex_spec rangeTables ksName alterVschema ksvs :
  Action alterVschema = DropColVindexDDLAction →
  TableIsEmpty alterVschema = false →
  let tableName := TableName alterVschema in
  let name := SpecName alterVschema in
  let r := applyDDL rangeTables ksName alterVschema ksvs in
  (Tables ksvs !! tableName = None →
     r = (ksvs, inl (ErrTableNotDefined ksName tableName))) ∧
  (∀ table,
     Tables ksvs !! tableName = Some table →
     ¬ references name table →
     r = (ksvs, inl (ErrVindexNotInTable name ksName tableName))) ∧
  (∀ table,
     Tables ksvs !! tableName = Some table →
     references name table →
     ∃ i cv,
       tColumnVindexes table !! i = Some cv ∧ cvName cv = name ∧
       (∀ j cv', j < i → tColumnVindexes table !! j = Some cv' → cvName cv' ≠ name) ∧
       r = (withTables ksvs
              (match delete i (tColumnVindexes table) with
               | [] => delete tableName (Tables ksvs)
               | rest => <[tableName := withColumnVindexes table rest]> (Tables ksvs)
               end), inr tt)).
Proof.
  intros Hact Hname tableName name r. subst tableName name r.
  unfold_ddl. rewrite Hact, Hname. repeat split.
  - by intros ->.
  - intros table -> Hnot. simpl.
    destruct (indexOf (SpecName alterVschema) (tColumnVindexes table)) eqn:Hi; [| done].
    destruct Hnot. apply Exists_exists, indexOf_is_Some. by eexists.
  - intros table -> Href. simpl.
    destruct (indexOf (SpecName alterVschema) (tColumnVindexes table)) as [i|] eqn:Hi.
    + destruct (indexOf_Some _ _ _ Hi) as [(cv & Hcv & Hn) Hfirst].
      exists i, cv. repeat split; try done.
      rewrite <- removeAt_delete. unfold withTables. simpl.
      destruct (removeAt i (tColumnVindexes table)); simpl; [| done].
      by rewrite delete_insert_eq.
    + rewrite indexOf_None in Hi. apply Exists_exists in Href as (cv & Hin & Hn).
      by destruct (Hi cv Hin).
Qed.

(** Scenario 5: [t1] had exactly one column vindex, so dropping it removes
    [t1] from the tables mapping. *)
Lemma dropColVindex_spec_witness :
  ∃ i cv,
    tColumnVindexes (routedTable None) !! i = Some cv ∧
    applyDDL map_to_list "ks"
      (vindexStatement DropColVindexDDLAction "t1" "hash_vdx" None [])
      (ksWithRoutedTable None)
    = (withTables (ksWithRoutedTable None)
         (match delete i (tColumnVindexes (routedTable None)) with
          | [] => delete "t1" (Tables (ksWithRoutedTable None))
          | rest => <["t1" := withColumnVindexes (routedTable None) rest]>
                      (Tables (ksWithRoutedTable None))
          end), inr tt).
Proof.
  destruct (proj2 (proj2 (dropColVindex_spec map_to_list "ks"
      (vindexStatement DropColVindexDDLAction "t1" "hash_vdx" None [])
      (ksWithRoutedTable None) eq_refl eq_refl)) (routedTable None))
    as (i & cv & Hcv & _ & _ & Hrun).
  - reflexivity.
  - left. reflexivity.
  - exists i, cv. split; [exact Hcv | exact Hrun].
Defined.

(** ** Fetching the schema *)

(** C8.  Without a topology server the function returns the
    failed-precondition error, and nothing is fetched.  When the server
    reports that the keyspace has no schema, the statement is applied to
    the synthesised schema (unsharded, no tables, no vindexes): the result
    is the one obtained from a server that stores this empty schema, so it
    is never the fetch error, and a CreateVindex succeeds on it.  Any other
    error of the server is returned, wrapped. *)
Theorem fetch_schema rangeTables ksName alterVschema :
  (ApplyVSchemaDDL rangeTables ksName None alterVschema = inl ErrReadOnly ∧
   errorCode ErrReadOnly = Some Code_FAILED_PRECONDITION) ∧
  (∀ topoServer,
     GetVSchema topoServer ksName = NoNode →
     Sharded (emptyVSchema ksName) = false ∧
     Tables (emptyVSchema ksName) = ∅ ∧
     Vindexes (emptyVSchema ksName) = ∅ ∧
     ApplyVSchemaDDL rangeTables ksName (Some topoServer) alterVschema
     = returned (applyDDL rangeTables ksName alterVschema (emptyVSchema ksName)) ∧
     ApplyVSchemaDDL rangeTables ksName (Some topoServer) alterVschema
     = ApplyVSchemaDDL rangeTables ksName
         (Some {| GetVSchema := λ _, GotVSchema (emptyVSchema ksName) |}) alterVschema ∧
     (∀ err, ApplyVSchemaDDL rangeTables ksName (Some topoServer) alterVschema
             ≠ inl (ErrGetVSchema err ksName)) ∧
     ApplyVSchemaDDL rangeTables ksName (Some topoServer) alterVschema ≠ inl ErrReadOnly ∧
     (Action alterVschema = CreateVindexDDLAction →
      ApplyVSchemaDDL rangeTables ksName (Some topoServer) alterVschema
      = inr {| Name := ksName; Sharded := true; Tables := ∅;
               Vindexes := {[ SpecName alterVschema := specVindex alterVschema ]} |})) ∧
  (∀ topoServer ksvs,
     GetVSchema topoServer ksName = GotVSchema ksvs →
     ApplyVSchemaDDL rangeTables ksName (Some topoServer) alterVschema
     = returned (applyDDL rangeTables ksName alterVschema ksvs)) ∧
  (∀ topoServer err,
     GetVSchema topoServer ksName = OtherError err →
     ApplyVSchemaDDL rangeTables ksName (Some topoServer) alterVschema
     = inl (ErrGetVSchema err ksName)).
Proof.
  split; [done |]. split; [| split].
  - intros topoServer Hget. unfold ApplyVSchemaDDL. rewrite Hget. simpl.
    repeat split.
    + intros err. unfold_ddl.
      destruct (Action alterVschema); split_ddl; done.
    + unfold_ddl. destruct (Action alterVschema); split_ddl; done.
    + intros Hact. unfold_ddl. rewrite Hact. simpl.
      by rewrite lookup_empty.
  - intros topoServer ksvs Hget. unfold ApplyVSchemaDDL. by rewrite Hget.
  - intros topoServer err Hget. unfold ApplyVSchemaDDL. by rewrite Hget.
Qed.

(** Scenario 1 through a server on which the keyspace has no schema yet. *)
Lemma fetch_schema_witness :
  ApplyVSchemaDDL map_to_list "ks" (Some {| GetVSchema := λ _, NoNode |})
    (vindexStatement CreateVindexDDLAction "" "hash_vdx" (Some "hash") [])
  = inr ksWithVindex.
Proof.
  destruct (proj1 (proj2 (fetch_schema map_to_list "ks"
      (vindexStatement CreateVindexDDLAction "" "hash_vdx" (Some "hash") [])))
      {| GetVSchema := λ _, NoNode |} eq_refl)
    as (_ & _ & _ & _ & _ & _ & _ & Hcreate).
  rewrite (Hcreate eq_refl). reflexivity.
Defined.

(** ** DropTable and DropSequence do not look at the table's kind *)

(** C9.  On an unsharded keyspace DropSequence removes the Table record of
    the given name whatever the record is, and DropTable removes the Table
    record of the given name whatever the record is, a sequence included:
    the result depends on the name being in the tables mapping, not on the
    record stored under it. *)
Theorem drop_ignores_kind rangeTables ksName alterVschema ksvs table :
  Tables ksvs !! TableName alterVschema = Some table →
  let r := applyDDL rangeTables ksName alterVschema ksvs in
  (Action alterVschema = DropSequenceDDLAction →
   Sharded ksvs = false →
   r = (withTables ksvs (delete (TableName alterVschema) (Tables ksvs)), inr tt)) ∧
  (Action alterVschema = DropVschemaTableDDLAction →
   r = (withTables ksvs (delete (TableName alterVschema) (Tables ksvs)), inr tt)).
Proof.
  intros Htable r. subst r. unfold_ddl. split.
  - intros -> ->. by rewrite Htable.
  - intros ->. by rewrite Htable.
Qed.

(** [DROP SEQUENCE t] removes the plain table [t], and [DROP TABLE s]
    removes the sequence table [s]. *)
Lemma drop_ignores_kind_witness :
  (tType <$> Tables ksUnsharded !! "t") = Some "" ∧
  Tables (objectAfter (applyDDL map_to_list "ks"
    (tableStatement DropSequenceDDLAction "t") ksUnsharded)) !! "t" = None ∧
  (tType <$> Tables ksUnsharded !! "s") = Some "sequence" ∧
  Tables (objectAfter (applyDDL map_to_list "ks"
    (tableStatement DropVschemaTableDDLAction "s") ksUnsharded)) !! "s" = None.
Proof.
  split; [reflexivity |]. split; [| split; [reflexivity |]].
  - rewrite (proj1 (drop_ignores_kind map_to_list "ks"
      (tableStatement DropSequenceDDLAction "t") ksUnsharded emptyTable eq_refl)
      eq_refl eq_refl).
    reflexivity.
  - rewrite (proj2 (drop_ignores_kind map_to_list "ks"
      (tableStatement DropVschemaTableDDLAction "s") ksUnsharded
      {| tType := "sequence"; tColumnVindexes := []; tAutoIncrement := None |} eq_refl)
      eq_refl).
    reflexivity.
Defined.

(** ** What the table-scoped actions leave alone *)

(** C10.  A successful DropColumnVindex, AddAutoIncrement,
    DropAutoIncrement, DropTable or DropSequence leaves the vindexes
    mapping, the sharded flag and every entry of the tables mapping other
    than the targeted table's as they were.  AddAutoIncrement and
    DropAutoIncrement keep the targeted table, with its kind and its
    column vindexes, and write only its autoIncrement field. *)
Theorem table_action_frame rangeTables ksName alterVschema ksvs ksvs' :
  applyDDL rangeTables ksName alterVschema ksvs = (ksvs', inr tt) →
  Action alterVschema = DropColVindexDDLAction ∨
  Action alterVschema = AddAutoIncDDLAction ∨
  Action alterVschema = DropAutoIncDDLAction ∨
  Action alterVschema = DropVschemaTableDDLAction ∨
  Action alterVschema = DropSequenceDDLAction →
  Vindexes ksvs' = Vindexes ksvs ∧
  Sharded ksvs' = Sharded ksvs ∧
  (∀ n, n ≠ TableName alterVschema → Tables ksvs' !! n = Tables ksvs !! n) ∧
  (Action alterVschema = AddAutoIncDDLAction ∨
   Action alterVschema = DropAutoIncDDLAction →
   ∃ table table',
     Tables ksvs !! TableName alterVschema = Some table ∧
     Tables ksvs' !! TableName alterVschema = Some table' ∧
     tType table' = tType table ∧
     tColumnVindexes table' = tColumnVindexes table ∧
     (Action alterVschema = AddAutoIncDDLAction →
      tAutoIncrement table' = Some (specAutoIncrement alterVschema)) ∧
     (Action alterVschema = DropAutoIncDDLAction →
      tAutoIncrement table' = None)).
Proof.
  intros Hrun [Hact | [Hact | [Hact | [Hact | Hact]]]].
  - destruct (dropColVindex_success _ _ _ _ _ Hrun Hact)
      as (table & i & _ & Htable & _ & ->).
    repeat split; simpl.
    + intros n Hne. destruct (removeAt i (tColumnVindexes table));
        [by rewrite lookup_delete_ne | by rewrite lookup_insert_ne].
    + intros [H | H]; congruence.
  - destruct (addAutoInc_success _ _ _ _ _ Hrun Hact) as (table & Htable & _ & ->).
    repeat split; simpl.
    + intros n Hne. by rewrite lookup_insert_ne.
    + intros _. exists table, (withAutoIncrement table (Some (specAutoIncrement alterVschema))).
      rewrite lookup_insert_eq. repeat split; try done. congruence.
  - destruct (dropAutoInc_success _ _ _ _ _ Hrun Hact) as (table & Htable & _ & ->).
    repeat split; simpl.
    + intros n Hne. by rewrite lookup_insert_ne.
    + intros _. exists table, (withAutoIncrement table None).
      rewrite lookup_insert_eq. repeat split; try done. congruence.
  - destruct (dropVschemaTable_success _ _ _ _ _ Hrun Hact) as (_ & ->).
    repeat split; simpl.
    + intros n Hne. by rewrite lookup_delete_ne.
    + intros [H | H]; congruence.
  - destruct (dropSequence_success _ _ _ _ _ Hrun Hact) as (_ & _ & ->).
    repeat split; simpl.
    + intros n Hne. by rewrite lookup_delete_ne.
    + intros [H | H]; congruence.
Qed.

(** Setting the auto-increment of [t1] in the keyspace of scenario 3. *)
Lemma table_action_frame_witness :
  let ksvs' := objectAfter (applyDDL map_to_list "ks"
                 (autoIncStatement AddAutoIncDDLAction "t1" "id" "seq")
                 (ksWithRoutedTable None)) in
  Vindexes ksvs' = Vindexes (ksWithRoutedTable None) ∧
  Sharded ksvs' = Sharded (ksWithRoutedTable None) ∧
  ∃ table table',
    Tables (ksWithRoutedTable None) !! "t1" = Some table ∧
    Tables ksvs' !! "t1" = Some table' ∧
    tColumnVindexes table' = tColumnVindexes table ∧
    tAutoIncrement table' = Some {| aiColumn := "id"; aiSequence := "seq" |}.
Proof.
  destruct (table_action_frame map_to_list "ks"
      (autoIncStatement AddAutoIncDDLAction "t1" "id" "seq")
      (ksWithRoutedTable None)
      (objectAfter (applyDDL map_to_list "ks"
         (autoIncStatement AddAutoIncDDLAction "t1" "id" "seq")
         (ksWithRoutedTable None))))
    as (Hv & Hs & _ & Htarget).
  - vm_compute. reflexivity.
  - right. left. reflexivity.
  - destruct Htarget as (table & table' & Ht & Ht' & _ & Hcvs & Hai & _);
      [left; reflexivity |].
    simpl. split; [exact Hv |]. split; [exact Hs |].
    exists table, table'. repeat split; try assumption. apply Hai. reflexivity.
Defined.

(** * Further properties of the function *)

(** ** Invariants kept by every successful call *)

Lemma vindexesResolved_lookup ksvs :
  vindexesResolved ksvs ↔
  ∀ tableName table cv,
    Tables ksvs !! tableName = Some table →
    cv ∈ tColumnVindexes table →
    is_Some (Vindexes ksvs !! cvName cv).
Proof.
  unfold vindexesResolved. rewrite map_Forall_lookup. split.
  - intros Hall tn t cv Ht Hcv. specialize (Hall tn t Ht). simpl in Hall.
    rewrite Forall_forall in Hall. by apply Hall.
  - intros Hall tn t Ht. apply Forall_forall. intros cv Hcv. by apply (Hall tn t).
Qed.

Lemma elem_of_removeAt i (cvs : list ColumnVindex) cv :
  cv ∈ removeAt i cvs → cv ∈ cvs.
Proof.
  rewrite removeAt_delete. intros Hin.
  apply (elem_of_sublist _ _ _ Hin), sublist_delete.
Qed.

(** X1.  Referential integrity is an invariant: if every column vindex of
    the schema names a vindex of the keyspace, the same holds of the schema
    any successful call returns, in whichever order the tables are
    visited. *)
Theorem resolved_preserved (rangeTables : gmap string Table → list (string * Table))
    ksName alterVschema ksvs ksvs' :
  (∀ m, rangeTables m ≡ₚ map_to_list m) →
  vindexesResolved ksvs →
  applyDDL rangeTables ksName alterVschema ksvs = (ksvs', inr tt) →
  vindexesResolved ksvs'.
Proof.
  intros Hperm Hres Hrun. rewrite vindexesResolved_lookup in Hres.
  apply vindexesResolved_lookup. intros tn t cv Ht Hcv.
  destruct (Action alterVschema) eqn:Hact.
  - destruct (createVindex_success _ _ _ _ _ Hrun Hact) as (_ & _ & HT & HV & _).
    rewrite HT in Ht. rewrite HV. apply lookup_insert_is_Some'. right. eauto.
  - destruct (dropVindex_success _ _ _ _ _ Hrun Hact) as (_ & Hscan & ->).
    simpl in *. rewrite stillDefinedOn_None in Hscan.
    rewrite lookup_delete_ne; [eauto |].
    intros Heq. apply (Hscan tn t); [by apply (elem_of_rangeTables _ Hperm) |].
    apply Exists_exists. by exists cv.
  - destruct (addVschemaTable_success _ _ _ _ _ Hrun Hact) as (_ & _ & ->).
    simpl in *. apply lookup_insert_Some in Ht as [[_ <-] | [_ Ht]]; [| eauto].
    inversion Hcv.
  - destruct (dropVschemaTable_success _ _ _ _ _ Hrun Hact) as (_ & ->).
    simpl in *. apply lookup_delete_Some in Ht as [_ Ht]. eauto.
  - destruct (addColVindex_success _ _ _ _ _ Hrun Hact) as (_ & _ & HT & HV).
    assert (Hold : ∀ cv0 : ColumnVindex, is_Some (Vindexes ksvs !! cvName cv0) →
                   is_Some (Vindexes ksvs' !! cvName cv0)).
    { intros cv0 Hsome.
      destruct HV as [(_ & _ & -> & _) | (_ & -> & _)]; [| done].
      apply lookup_insert_is_Some'. by right. }
    assert (Hnew : is_Some (Vindexes ksvs' !! SpecName alterVschema)).
    { destruct HV as [(_ & _ & -> & _) | (Hsome & -> & _)]; [| done].
      apply lookup_insert_is_Some'. by left. }
    rewrite HT in Ht. apply lookup_insert_Some in Ht as [[_ <-] | [_ Ht]].
    + simpl in Hcv. apply elem_of_app in Hcv as [Hcv | Hcv].
      * apply Hold. destruct (TableIsEmpty alterVschema); [inversion Hcv |].
        destruct (Tables ksvs !! TableName alterVschema) as [t0|] eqn:Ht0;
          [eauto | inversion Hcv].
      * apply list_elem_of_singleton in Hcv as ->. exact Hnew.
    + apply Hold. eauto.
  - destruct (dropColVindex_success _ _ _ _ _ Hrun Hact)
      as (table & i & _ & Htable & _ & ->).
    simpl in *. destruct (removeAt i (tColumnVindexes table)) eqn:Hrest.
    + apply lookup_delete_Some in Ht as [_ Ht]. eauto.
    + apply lookup_insert_Some in Ht as [[_ <-] | [_ Ht]]; [| eauto].
      simpl in Hcv. rewrite <- Hrest in Hcv. apply elem_of_removeAt in Hcv. eauto.
  - destruct (addSequence_success _ _ _ _ _ Hrun Hact) as (_ & _ & ->).
    simpl in *. apply lookup_insert_Some in Ht as [[_ <-] | [_ Ht]]; [| eauto].
    inversion Hcv.
  - destruct (dropSequence_success _ _ _ _ _ Hrun Hact) as (_ & _ & ->).
    simpl in *. apply lookup_delete_Some in Ht as [_ Ht]. eauto.
  - destruct (addAutoInc_success _ _ _ _ _ Hrun Hact) as (table & Htable & _ & ->).
    simpl in *. apply lookup_insert_Some in Ht as [[_ <-] | [_ Ht]]; eauto.
  - destruct (dropAutoInc_success _ _ _ _ _ Hrun Hact) as (table & Htable & _ & ->).
    simpl in *. apply lookup_insert_Some in Ht as [[_ <-] | [_ Ht]]; eauto.
  - destruct (otherAction_fails _ _ _ _ _ Hrun _ Hact).
Qed.

(** Scenario 3 keeps the keyspace of scenario 1 resolved. *)
Lemma resolved_preserved_witness :
  vindexesResolved ksWithVindex ∧
  vindexesResolved (objectAfter (applyDDL map_to_list "ks"
    (vindexStatement AddColVindexDDLAction "t1" "hash_vdx" None ["id"]) ksWithVindex)).
Proof.
  assert (Hres : vindexesResolved ksWithVindex).
  { apply (bool_decide_eq_true_1 (vindexesResolved ksWithVindex)).
    vm_compute. reflexivity. }
  split; [exact Hres |].
  refine (resolved_preserved map_to_list "ks"
    (vindexStatement AddColVindexDDLAction "t1" "hash_vdx" None ["id"])
    ksWithVindex _ _ Hres _).
  - intros m. reflexivity.
  - vm_compute. reflexivity.
Defined.

Lemma uniqueNames_lookup ksvs :
  uniqueNames ksvs ↔
  ∀ tableName table,
    Tables ksvs !! tableName = Some table → NoDup (cvName <$> tColumnVindexes table).
Proof. unfold uniqueNames. by rewrite map_Forall_lookup. Qed.

Lemma NoDup_names_removeAt i (cvs : list ColumnVindex) :
  NoDup (cvName <$> cvs) → NoDup (cvName <$> removeAt i cvs).
Proof.
  intros Hdup. apply (sublist_NoDup _ _ Hdup).
  rewrite removeAt_delete, list_fmap_delete. apply sublist_delete.
Qed.

(** X2.  Column-vindex names stay unique within each table: if no table of
    the schema carries two column vindexes of the same name, no table of
    the schema a successful call returns does. *)
Theorem uniqueNames_preserved rangeTables ksName alterVschema ksvs ksvs' :
  uniqueNames ksvs →
  applyDDL rangeTables ksName alterVschema ksvs = (ksvs', inr tt) →
  uniqueNames ksvs'.
Proof.
  intros Huniq Hrun. rewrite uniqueNames_lookup in Huniq.
  apply uniqueNames_lookup. intros tn t Ht.
  destruct (Action alterVschema) eqn:Hact.
  - destruct (createVindex_success _ _ _ _ _ Hrun Hact) as (_ & _ & HT & _).
    rewrite HT in Ht. eauto.
  - destruct (dropVindex_success _ _ _ _ _ Hrun Hact) as (_ & _ & ->). eauto.
  - destruct (addVschemaTable_success _ _ _ _ _ Hrun Hact) as (_ & _ & ->).
    simpl in *. apply lookup_insert_Some in Ht as [[_ <-] | [_ Ht]]; [| eauto].
    constructor.
  - destruct (dropVschemaTable_success _ _ _ _ _ Hrun Hact) as (_ & ->).
    simpl in *. apply lookup_delete_Some in Ht as [_ Ht]. eauto.
  - destruct (addColVindex_success _ _ _ _ _ Hrun Hact) as (Hfresh & _ & HT & _).
    rewrite HT in Ht. apply lookup_insert_Some in Ht as [[_ <-] | [_ Ht]]; [| eauto].
    simpl. rewrite fmap_app. simpl. apply NoDup_app. repeat split.
    + destruct (TableIsEmpty alterVschema); [constructor |].
      destruct (Tables ksvs !! TableName alterVschema) eqn:Ht0; [eauto | constructor].
    + intros name Hin Hnew. apply list_elem_of_singleton in Hnew as ->.
      apply list_elem_of_fmap in Hin as (cv & Hname & Hcv).
      rewrite definedOn_false in Hfresh. by apply (Hfresh cv).
    + apply NoDup_singleton.
  - destruct (dropColVindex_success _ _ _ _ _ Hrun Hact)
      as (table & i & _ & Htable & _ & ->).
    pose proof (NoDup_names_removeAt i _ (Huniq _ _ Htable)) as Hrest'.
    simpl in Ht. destruct (removeAt i (tColumnVindexes table)) eqn:Hrest.
    + apply lookup_delete_Some in Ht as [_ Ht]. eauto.
    + apply lookup_insert_Some in Ht as [[_ <-] | [_ Ht]]; [| eauto].
      exact Hrest'.
  - destruct (addSequence_success _ _ _ _ _ Hrun Hact) as (_ & _ & ->).
    simpl in *. apply lookup_insert_Some in Ht as [[_ <-] | [_ Ht]]; [| eauto].
    constructor.
  - destruct (dropSequence_success _ _ _ _ _ Hrun Hact) as (_ & _ & ->).
    simpl in *. apply lookup_delete_Some in Ht as [_ Ht]. eauto.
  - destruct (addAutoInc_success _ _ _ _ _ Hrun Hact) as (table & Htable & _ & ->).
    simpl in *. apply lookup_insert_Some in Ht as [[_ <-] | [_ Ht]]; simpl; eauto.
  - destruct (dropAutoInc_success _ _ _ _ _ Hrun Hact) as (table & Htable & _ & ->).
    simpl in *. apply lookup_insert_Some in Ht as [[_ <-] | [_ Ht]]; simpl; eauto.
  - destruct (otherAction_fails _ _ _ _ _ Hrun _ Hact).
Qed.

(** Scenario 3 again: [t1] gets one column vindex. *)
Lemma uniqueNames_preserved_witness :
  uniqueNames ksWithVindex ∧
  uniqueNames (objectAfter (applyDDL map_to_list "ks"
    (vindexStatement AddColVindexDDLAction "t1" "hash_vdx" None ["id"]) ksWithVindex)).
Proof.
  assert (Huniq : uniqueNames ksWithVindex).
  { apply (bool_decide_eq_true_1 (uniqueNames ksWithVindex)). vm_compute. reflexivity. }
  split; [exact Huniq |].
  refine (uniqueNames_preserved map_to_list "ks"
    (vindexStatement AddColVindexDDLAction "t1" "hash_vdx" None ["id"])
    ksWithVindex _ Huniq _).
  vm_compute. reflexivity.
Defined.

(** ** Applying a statement twice *)

Lemma paramsDiffer_refl p : paramsDiffer p p = false.
Proof. by apply paramsDiffer_false. Qed.

Lemma definedOn_app name cvs cv :
  cvName cv = name → definedOn name (cvs ++ [cv]) = true.
Proof.
  intros Hname. apply definedOn_true. exists cv. split; [| done].
  apply elem_of_app. right. by apply list_elem_of_singleton.
Qed.

(** X3.  No statement succeeds twice in a row.  For every action other than
    DropColumnVindex (and, for AddColumnVindex, a statement that names its
    table), if a statement succeeds then the same statement applied to the
    schema it returned fails, with the error that tells the work is already
    done, and leaves that schema as it is. *)
Theorem no_statement_succeeds_twice rangeTables ksName alterVschema ksvs ksvs' :
  applyDDL rangeTables ksName alterVschema ksvs = (ksvs', inr tt) →
  Action alterVschema ≠ DropColVindexDDLAction →
  (Action alterVschema = AddColVindexDDLAction → TableIsEmpty alterVschema = false) →
  applyDDL rangeTables ksName alterVschema ksvs'
  = (ksvs',
     inl match Action alterVschema with
         | CreateVindexDDLAction =>
             ErrVindexAlreadyExists (SpecName alterVschema) ksName
         | DropVindexDDLAction =>
             ErrVindexDoesNotExists (SpecName alterVschema) ksName
         | AddVschemaTableDDLAction =>
             ErrAlreadyContainsTable (TableName alterVschema) ksName
         | AddSequenceDDLAction =>
             ErrAlreadyContainsSequence (TableName alterVschema) ksName
         | DropSequenceDDLAction =>
             ErrDoesNotContainSequence (TableName alterVschema) ksName
         | AddColVindexDDLAction =>
             ErrVindexAlreadyOnTable (SpecName alterVschema) (TableName alterVschema)
         | AddAutoIncDDLAction =>
             ErrAlreadyContainsAutoInc (specAutoIncrement alterVschema)
               (TableName alterVschema) ksName
         | DropAutoIncDDLAction =>
             ErrDoesNotContainAutoInc (TableName alterVschema) ksName
         | _ => ErrDoesNotContainTable (TableName alterVschema) ksName
         end).
Proof.
  intros Hrun Hnot Hnamed.
  destruct (Action alterVschema) eqn:Hact; try done.
  - destruct (createVindex_success _ _ _ _ _ Hrun Hact) as (_ & _ & _ & HV & _).
    clear Hrun. unfold_ddl. rewrite Hact. simpl. by rewrite HV, lookup_insert_eq.
  - destruct (dropVindex_success _ _ _ _ _ Hrun Hact) as (_ & _ & ->).
    unfold_ddl. rewrite Hact. simpl. by rewrite lookup_delete_eq.
  - destruct (addVschemaTable_success _ _ _ _ _ Hrun Hact) as (Hs & _ & ->).
    unfold_ddl. rewrite Hact. simpl. rewrite Hs. simpl. by rewrite lookup_insert_eq.
  - destruct (dropVschemaTable_success _ _ _ _ _ Hrun Hact) as (_ & ->).
    unfold_ddl. rewrite Hact. simpl. by rewrite lookup_delete_eq.
  - specialize (Hnamed eq_refl).
    destruct (addColVindex_success _ _ _ _ _ Hrun Hact) as (_ & _ & HT & HV).
    rewrite Hnamed in HT.
    assert (Hresolve : resolveVindex ksName alterVschema ksvs' = (ksvs', inr tt)).
    { unfold_ddl. rewrite Hact, Hnamed in Hrun.
      destruct HV as [(Htype & Hnone & HV & _) | ([vindex Hvindex] & HV & _)]; rewrite HV.
      - rewrite Htype, lookup_insert_eq. simpl.
        by rewrite !bool_decide_eq_true_2, paramsDiffer_refl.
      - rewrite Hvindex in Hrun |- *.
        destruct (SpecTypeNotEmpty alterVschema); [| done].
        repeat (case_match; simplify_eq/=; try done). }
    unfold applyDDL, addColVindex, mbind, M_bind, bind, gets. simpl.
    rewrite Hact, Hnamed, Hresolve, HT, lookup_insert_eq. simpl.
    by rewrite definedOn_app.
  - destruct (addSequence_success _ _ _ _ _ Hrun Hact) as (Hs & _ & ->).
    unfold_ddl. rewrite Hact. simpl. rewrite Hs. simpl. by rewrite lookup_insert_eq.
  - destruct (dropSequence_success _ _ _ _ _ Hrun Hact) as (Hs & _ & ->).
    unfold_ddl. rewrite Hact. simpl. rewrite Hs. simpl. by rewrite lookup_delete_eq.
  - destruct (addAutoInc_success _ _ _ _ _ Hrun Hact) as (table & _ & _ & ->).
    unfold_ddl. rewrite Hact. simpl. by rewrite lookup_insert_eq.
  - destruct (dropAutoInc_success _ _ _ _ _ Hrun Hact) as (table & _ & _ & ->).
    unfold_ddl. rewrite Hact. simpl. by rewrite lookup_insert_eq.
  - destruct (otherAction_fails _ _ _ _ _ Hrun _ Hact).
Qed.

(** Scenario 3 applied a second time. *)
Lemma no_statement_succeeds_twice_witness :
  applyDDL map_to_list "ks"
    (vindexStatement AddColVindexDDLAction "t1" "hash_vdx" None ["id"])
    (ksWithRoutedTable None)
  = (ksWithRoutedTable None, inl (ErrVindexAlreadyOnTable "hash_vdx" "t1")).
Proof.
  refine (no_statement_succeeds_twice map_to_list "ks"
    (vindexStatement AddColVindexDDLAction "t1" "hash_vdx" None ["id"])
    ksWithVindex (ksWithRoutedTable None) _ _ _).
  - vm_compute. reflexivity.
  - discriminate.
  - reflexivity.
Defined.

(** ** A statement and the statement that undoes it *)

Lemma withTables_id ksvs : withTables ksvs (Tables ksvs) = ksvs.
Proof. by destruct ksvs. Qed.

Lemma withAutoIncrement_id table : withAutoIncrement table (tAutoIncrement table) = table.
Proof. by destruct table. Qed.

Lemma withColumnVindexes_id table :
  withColumnVindexes table (tColumnVindexes table) = table.
Proof. by destruct table. Qed.

(** X4.  Adding a table and dropping it again gives back the schema one
    started from, and the two kinds of statement mix: a table added by
    AddTable or AddSequence is removed by DropTable as well as by
    DropSequence. *)
Theorem add_then_drop_table rangeTables ksName add drop ksvs ksvs' :
  Action add = AddVschemaTableDDLAction ∨ Action add = AddSequenceDDLAction →
  Action drop = DropVschemaTableDDLAction ∨ Action drop = DropSequenceDDLAction →
  TableName drop = TableName add →
  applyDDL rangeTables ksName add ksvs = (ksvs', inr tt) →
  applyDDL rangeTables ksName drop ksvs' = (ksvs, inr tt).
Proof.
  intros Hadd Hdrop Hname Hrun.
  assert (Hstate : Sharded ksvs = false ∧ ∃ table,
    Tables ksvs !! TableName add = None ∧
    ksvs' = withTables ksvs (<[TableName add := table]> (Tables ksvs))).
  { destruct Hadd as [Hact | Hact].
    - destruct (addVschemaTable_success _ _ _ _ _ Hrun Hact) as (? & ? & ->). eauto.
    - destruct (addSequence_success _ _ _ _ _ Hrun Hact) as (? & ? & ->). eauto. }
  destruct Hstate as (Hs & table & Hnone & ->).
  unfold_ddl. destruct Hdrop as [-> | ->]; rewrite Hname; simpl; rewrite ?Hs; simpl.
  all: rewrite lookup_insert_eq; simpl.
  all: rewrite delete_insert_id by done.
  all: destruct ksvs; simpl in *; by subst.
Qed.

(** [ADD SEQUENCE q] on the unsharded keyspace, then [DROP TABLE q]. *)
Lemma add_then_drop_table_witness :
  applyDDL map_to_list "ks" (tableStatement DropVschemaTableDDLAction "q")
    (objectAfter (applyDDL map_to_list "ks" (tableStatement AddSequenceDDLAction "q")
       ksUnsharded))
  = (ksUnsharded, inr tt).
Proof.
  refine (add_then_drop_table map_to_list "ks"
    (tableStatement AddSequenceDDLAction "q")
    (tableStatement DropVschemaTableDDLAction "q") ksUnsharded _ _ _ _ _).
  - right. reflexivity.
  - left. reflexivity.
  - reflexivity.
  - vm_compute. reflexivity.
Defined.

(** X5.  Setting an auto-increment and dropping it again gives back the
    schema one started from; the other way round, dropping the
    auto-increment of a table and setting the same column and sequence
    again gives it back too. *)
Theorem autoInc_round_trip rangeTables ksName add drop ksvs ksvs' :
  Action add = AddAutoIncDDLAction →
  Action drop = DropAutoIncDDLAction →
  TableName drop = TableName add →
  (applyDDL rangeTables ksName add ksvs = (ksvs', inr tt) →
   applyDDL rangeTables ksName drop ksvs' = (ksvs, inr tt)) ∧
  (applyDDL rangeTables ksName drop ksvs = (ksvs', inr tt) →
   (tAutoIncrement <$> Tables ksvs !! TableName add)
     = Some (Some (specAutoIncrement add)) →
   applyDDL rangeTables ksName add ksvs' = (ksvs, inr tt)).
Proof.
  intros Hadd Hdrop Hname. split.
  - intros Hrun.
    destruct (addAutoInc_success _ _ _ _ _ Hrun Hadd) as (table & Htable & Hnone & ->).
    unfold_ddl. rewrite Hdrop, Hname. simpl. rewrite lookup_insert_eq. simpl.
    rewrite insert_insert_eq. unfold withAutoIncrement. simpl.
    rewrite <- Hnone. fold (withAutoIncrement table (tAutoIncrement table)).
    rewrite withAutoIncrement_id, insert_id by done. by destruct ksvs.
  - intros Hrun Hai.
    destruct (dropAutoInc_success _ _ _ _ _ Hrun Hdrop) as (table & Htable & _ & ->).
    rewrite Hname in Htable. rewrite Htable in Hai. simplify_eq/=.
    unfold_ddl. rewrite Hadd, Hname. simpl. rewrite lookup_insert_eq. simpl.
    rewrite insert_insert_eq. unfold withAutoIncrement. simpl.
    unfold specAutoIncrement in Hai. rewrite <- Hai.
    fold (withAutoIncrement table (tAutoIncrement table)).
    rewrite withAutoIncrement_id, insert_id by done. by destruct ksvs.
Qed.

(** Setting and dropping the auto-increment of [t1]. *)
Lemma autoInc_round_trip_witness :
  applyDDL map_to_list "ks" (autoIncStatement DropAutoIncDDLAction "t1" "" "")
    (objectAfter (applyDDL map_to_list "ks"
       (autoIncStatement AddAutoIncDDLAction "t1" "id" "seq") (ksWithRoutedTable None)))
  = (ksWithRoutedTable None, inr tt).
Proof.
  refine (proj1 (autoInc_round_trip map_to_list "ks"
    (autoIncStatement AddAutoIncDDLAction "t1" "id" "seq")
    (autoIncStatement DropAutoIncDDLAction "t1" "" "")
    (ksWithRoutedTable None) _ _ _ _) _).
  - reflexivity.
  - reflexivity.
  - reflexivity.
  - vm_compute. reflexivity.
Defined.

Lemma indexOf_app_fresh name cvs cv :
  definedOn name cvs = false → cvName cv = name →
  indexOf name (cvs ++ [cv]) = Some (length cvs).
Proof.
  intros Hfresh Hname. induction cvs as [|c cvs IH]; simpl in *.
  - by rewrite bool_decide_eq_true_2.
  - case_bool_decide; [done |]. by rewrite IH.
Qed.

Lemma removeAt_app_last (cvs : list ColumnVindex) cv :
  removeAt (length cvs) (cvs ++ [cv]) = cvs.
Proof.
  unfold removeAt. rewrite take_app_length.
  rewrite drop_ge; [apply app_nil_r |]. rewrite length_app. simpl. lia.
Qed.

(** X6.  Attaching a column vindex to a table and dropping it again undoes
    the attachment, with one exception that the cleanup rule causes: a
    table that had no column vindex before (one made by AddTable or
    AddSequence) is deleted by the drop instead of being restored.  Whatever
    AddColumnVindex did to the vindexes mapping and the sharded flag
    stays. *)
Theorem addColVindex_then_drop rangeTables ksName add drop ksvs ksvs' :
  Action add = AddColVindexDDLAction →
  TableIsEmpty add = false →
  Action drop = DropColVindexDDLAction →
  TableIsEmpty drop = false →
  TableName drop = TableName add →
  SpecName drop = SpecName add →
  applyDDL rangeTables ksName add ksvs = (ksvs', inr tt) →
  applyDDL rangeTables ksName drop ksvs'
  = (withTables ksvs'
       match Tables ksvs !! TableName add with
       | Some table =>
           match tColumnVindexes table with
           | [] => delete (TableName add) (Tables ksvs)
           | _ => Tables ksvs
           end
       | None => Tables ksvs
       end, inr tt).
Proof.
  intros Hadd Hnamed Hdrop Hnamed' Htn Hname Hrun.
  destruct (addColVindex_success _ _ _ _ _ Hrun Hadd) as (Hfresh & _ & HT & _).
  rewrite Hnamed in Hfresh, HT. clear Hrun.
  unfold_ddl. rewrite Hdrop, Hnamed', Htn, Hname, HT. simpl.
  rewrite lookup_insert_eq. simpl.
  rewrite (indexOf_app_fresh (SpecName add) _ (specColumnVindex add) Hfresh eq_refl).
  simpl.
  rewrite removeAt_app_last. unfold withTables.
  destruct (Tables ksvs !! TableName add) as [table|] eqn:Htable; simpl.
  - destruct (tColumnVindexes table) eqn:Hcvs; simpl; rewrite HT, insert_insert_eq.
    + by rewrite delete_insert_eq.
    + rewrite insert_id; [done |]. rewrite Htable. f_equal.
      unfold withColumnVindexes. simpl. rewrite <- Hcvs. by destruct table.
  - by rewrite HT, insert_insert_eq, delete_insert_id.
Qed.

(** On the unsharded keyspace with vindex-less table [t]: attach and drop a
    column vindex, and [t] is gone. *)
Lemma addColVindex_then_drop_witness :
  Tables ksUnsharded !! "t" = Some emptyTable ∧
  Tables (objectAfter (applyDDL map_to_list "ks"
    (vindexStatement DropColVindexDDLAction "t" "hash_vdx" None [])
    (objectAfter (applyDDL map_to_list "ks"
       (vindexStatement AddColVindexDDLAction "t" "hash_vdx" (Some "hash") ["id"])
       ksUnsharded)))) !! "t" = None.
Proof.
  split; [reflexivity |].
  rewrite (addColVindex_then_drop map_to_list "ks"
    (vindexStatement AddColVindexDDLAction "t" "hash_vdx" (Some "hash") ["id"])
    (vindexStatement DropColVindexDDLAction "t" "hash_vdx" None [])
    ksUnsharded
    (objectAfter (applyDDL map_to_list "ks"
       (vindexStatement AddColVindexDDLAction "t" "hash_vdx" (Some "hash") ["id"])
       ksUnsharded))
    eq_refl eq_refl eq_refl eq_refl eq_refl eq_refl).
  - vm_compute. reflexivity.
  - vm_compute. reflexivity.
Defined.

(** X7.  Creating a vindex and dropping it again is not a no-op.  On a
    schema whose column vindexes all name existing vindexes the drop
    succeeds and gives back the tables and the vindexes one started from,
    but a keyspace that had no vindex is now marked sharded, and from then
    on AddTable is refused. *)
Theorem createVindex_then_drop (rangeTables : gmap string Table → list (string * Table))
    ksName create drop ksvs ksvs' :
  (∀ m, rangeTables m ≡ₚ map_to_list m) →
  Action create = CreateVindexDDLAction →
  Action drop = DropVindexDDLAction →
  SpecName drop = SpecName create →
  vindexesResolved ksvs →
  applyDDL rangeTables ksName create ksvs = (ksvs', inr tt) →
  let ksvs'' := {| Name := Name ksvs;
                   Sharded := if decide (Vindexes ksvs = ∅) then true else Sharded ksvs;
                   Tables := Tables ksvs;
                   Vindexes := Vindexes ksvs |} in
  applyDDL rangeTables ksName drop ksvs' = (ksvs'', inr tt) ∧
  (Vindexes ksvs = ∅ →
   ∀ addTable, Action addTable = AddVschemaTableDDLAction →
     applyDDL rangeTables ksName addTable ksvs''
     = (ksvs'', inl (ErrUnsupportedOnSharded OpAddVschemaTable ksName))).
Proof.
  intros Hperm Hcreate Hdrop Hname Hres Hrun ksvs''. subst ksvs''.
  destruct (createVindex_success _ _ _ _ _ Hrun Hcreate) as (Hnone & HN & HT & HV & HS).
  clear Hrun. split.
  - assert (Hscan : stillDefinedOn (SpecName create) (rangeTables (Tables ksvs)) = None).
    { apply stillDefinedOn_None. intros tn t Hin Href.
      apply (elem_of_rangeTables _ Hperm) in Hin.
      apply Exists_exists in Href as (cv & Hcv & Hcvname).
      rewrite vindexesResolved_lookup in Hres.
      destruct (Hres _ _ _ Hin Hcv) as [v Hv]. congruence. }
    unfold_ddl. rewrite Hdrop, Hname. simpl.
    rewrite HV, lookup_insert_eq. simpl. rewrite HT, Hscan. simpl.
    rewrite HV, HT, delete_insert_id, HN, HS by done. do 2 f_equal.
    destruct (decide (Vindexes ksvs = ∅)) as [-> | Hne]; [done |].
    rewrite <- map_size_empty_iff in Hne. by apply Nat.eqb_neq in Hne as ->.
  - intros Hempty addTable Hact. unfold_ddl. rewrite Hact. simpl.
    by rewrite decide_True.
Qed.

(** Scenario 1 and scenario 6 one after the other, on the empty keyspace,
    then [ADD TABLE t]. *)
Lemma createVindex_then_drop_witness :
  let sharded := {| Name := "ks"; Sharded := true; Tables := ∅; Vindexes := ∅ |} in
  applyDDL map_to_list "ks" (vindexStatement DropVindexDDLAction "" "hash_vdx" None [])
    ksWithVindex = (sharded, inr tt) ∧
  applyDDL map_to_list "ks" (tableStatement AddVschemaTableDDLAction "t") sharded
  = (sharded, inl (ErrUnsupportedOnSharded OpAddVschemaTable "ks")).
Proof.
  destruct (createVindex_then_drop map_to_list "ks"
    (vindexStatement CreateVindexDDLAction "" "hash_vdx" (Some "hash") [])
    (vindexStatement DropVindexDDLAction "" "hash_vdx" None [])
    (emptyVSchema "ks") ksWithVindex) as [Hdrop Hadd].
  - intros m. reflexivity.
  - reflexivity.
  - reflexivity.
  - reflexivity.
  - apply (bool_decide_eq_true_1 (vindexesResolved (emptyVSchema "ks"))).
    vm_compute. reflexivity.
  - vm_compute. reflexivity.
  - split; [exact Hdrop |].
    exact (Hadd eq_refl (tableStatement AddVschemaTableDDLAction "t") eq_refl).
Defined.

(** ** Error codes *)




(** ** AddColumnVindex *)

(** X9.  For an AddColumnVindex that names its table.  Without a type, an
    unknown vindex is an error that leaves the schema alone, and a known
    vindex not yet on the table makes the call succeed.  On success the
    table (made empty when it did not exist) had no column vindex of that
    name and now has the new one as its last entry, after the earlier ones
    in their order, with its kind and auto-increment unchanged; the vindex
    exists in the keyspace; every other table and every other vindex is as
    before; and if the vindex existed already, the vindexes mapping and the
    sharded flag are as before. *)
Theorem addColVindex_spec rangeTables ksName alterVschema ksvs :
  Action alterVschema = AddColVindexDDLAction →
  TableIsEmpty alterVschema = false →
  let tableName := TableName alterVschema in
  let name := SpecName alterVschema in
  let old := default emptyTable (Tables ksvs !! tableName) in
  let r := applyDDL rangeTables ksName alterVschema ksvs in
  (SpecTypeNotEmpty alterVschema = false →
   Vindexes ksvs !! name = None →
   r = (ksvs, inl (ErrVindexDoesNotExist name ksName))) ∧
  (SpecTypeNotEmpty alterVschema = false →
   is_Some (Vindexes ksvs !! name) →
   ¬ references name old →
   errorOf r = None) ∧
  (errorOf r = None →
   ¬ references name old ∧
   Tables (objectAfter r) !! tableName
   = Some {| tType := tType old;
             tColumnVindexes := tColumnVindexes old ++ [specColumnVindex alterVschema];
             tAutoIncrement := tAutoIncrement old |} ∧
   (∀ n, n ≠ tableName → Tables (objectAfter r) !! n = Tables ksvs !! n) ∧
   is_Some (Vindexes (objectAfter r) !! name) ∧
   (∀ v, v ≠ name → Vindexes (objectAfter r) !! v = Vindexes ksvs !! v) ∧
   (is_Some (Vindexes ksvs !! name) →
    Vindexes (objectAfter r) = Vindexes ksvs ∧
    Sharded (objectAfter r) = Sharded ksvs)).
Proof.
  intros Hact Hnamed tableName name old r. subst tableName name old r.
  split; [| split].
  - intros Htype Hnone. unfold_ddl. by rewrite Hact, Htype, Hnone.
  - intros Htype [vindex Hvindex] Hfresh. unfold_ddl.
    rewrite Hact, Htype, Hvindex, Hnamed. simpl.
    rewrite <- definedOn_references in Hfresh. apply not_true_is_false in Hfresh.
    by rewrite Hfresh.
  - intros Hok. apply run_success in Hok as Hrun.
    destruct (addColVindex_success _ _ _ _ _ Hrun Hact) as (Hfresh & _ & HT & HV).
    rewrite Hnamed in Hfresh, HT.
    split; [| split; [| split; [| split; [| split]]]].
    + rewrite <- definedOn_references. congruence.
    + rewrite HT. apply lookup_insert_eq.
    + intros n Hne. rewrite HT. by apply lookup_insert_ne.
    + destruct HV as [(_ & _ & -> & _) | (? & -> & _)]; [| done].
      rewrite lookup_insert_eq. by eexists.
    + intros v Hne. destruct HV as [(_ & _ & -> & _) | (? & -> & _)]; [| done].
      by apply lookup_insert_ne.
    + intros [vindex Hvindex].
      destruct HV as [(_ & Hnone & _) | (_ & -> & ->)]; [congruence | done].
Qed.

(** Scenario 3: [t1] did not exist and is created with the one entry. *)
Lemma addColVindex_spec_witness :
  Tables (objectAfter (applyDDL map_to_list "ks"
    (vindexStatement AddColVindexDDLAction "t1" "hash_vdx" None ["id"]) ksWithVindex))
    !! "t1"
  = Some (routedTable None).
Proof.
  destruct (proj2 (proj2 (addColVindex_spec map_to_list "ks"
    (vindexStatement AddColVindexDDLAction "t1" "hash_vdx" None ["id"])
    ksWithVindex eq_refl eq_refl))) as (_ & Htable & _).
  - vm_compute. reflexivity.
  - refine (eq_trans Htable _). vm_compute. reflexivity.
Defined.

(** X11.  One vindex definition serves several tables.  After a successful
    AddColumnVindex that gives a type, a second AddColumnVindex with the
    same name, type and owner and the same params (a nil mapping read as
    the empty one), for a table that does not carry the vindex yet,
    succeeds and leaves the vindexes mapping and the sharded flag as the
    first call left them. *)
Theorem vindex_shared_across_tables rangeTables ksName first second ksvs ksvs' :
  Action first = AddColVindexDDLAction →
  Action second = AddColVindexDDLAction →
  SpecTypeNotEmpty first = true →
  SpecTypeNotEmpty second = true →
  TableIsEmpty second = false →
  SpecName second = SpecName first →
  SpecType second = SpecType first →
  SpecOwner second = SpecOwner first →
  paramsMap (SpecParams second) = paramsMap (SpecParams first) →
  applyDDL rangeTables ksName first ksvs = (ksvs', inr tt) →
  (∀ table, Tables ksvs' !! TableName second = Some table →
            ¬ references (SpecName first) table) →
  ∃ ksvs'',
    applyDDL rangeTables ksName second ksvs' = (ksvs'', inr tt) ∧
    Vindexes ksvs'' = Vindexes ksvs' ∧
    Sharded ksvs'' = Sharded ksvs'.
Proof.
  intros Hact1 Hact2 Htype1 Htype2 Hnamed Hname Htype Howner Hparams Hrun Hfresh.
  assert (Hvindex : ∃ vindex,
    Vindexes ksvs' !! SpecName first = Some vindex ∧
    vType vindex = SpecType first ∧ vOwner vindex = SpecOwner first ∧
    paramsMap (vParams vindex) = paramsMap (SpecParams first)).
  { destruct (addColVindex_success _ _ _ _ _ Hrun Hact1)
      as (_ & _ & _ & [(_ & _ & -> & _) | ([vindex Hvindex] & -> & _)]).
    - exists (specVindex first). by rewrite lookup_insert_eq.
    - exists vindex. split; [done |].
      pose proof (merge_case rangeTables ksName _ _ _ Hact1 Htype1 Hvindex) as Hmerge.
      simpl in Hmerge. rewrite Hrun in Hmerge.
      destruct (bool_decide (vType vindex = SpecType first)) eqn:Ht; [| done].
      destruct (bool_decide (vOwner vindex = SpecOwner first)) eqn:Ho; [| done].
      destruct (paramsDiffer (vParams vindex) (SpecParams first)) eqn:Hp; [done |].
      apply bool_decide_eq_true in Ht, Ho. by apply paramsDiffer_false in Hp. }
  destruct Hvindex as (vindex & Hvindex & Ht & Ho & Hp). clear Hrun.
  assert (Hdefined : definedOn (SpecName first)
    (tColumnVindexes (default emptyTable (Tables ksvs' !! TableName second))) = false).
  { apply not_true_is_false. rewrite definedOn_references.
    destruct (Tables ksvs' !! TableName second) as [table|] eqn:Htable; simpl.
    - by apply Hfresh.
    - unfold references. simpl. intros Hex. by apply Exists_nil in Hex. }
  assert (Hsame : paramsDiffer (vParams vindex) (SpecParams second) = false).
  { apply paramsDiffer_false. congruence. }
  eexists. unfold_ddl.
  rewrite Hact2, Htype2, Hnamed, Hname, Hvindex, Htype, Howner. simpl.
  rewrite !bool_decide_eq_true_2, Hsame by done. simpl.
  rewrite Hdefined. done.
Qed.

(** [hash_vdx] was created for [t1]; the same definition is attached to
    [t2], the stored params being an empty map and the new ones nil. *)
Lemma vindex_shared_across_tables_witness :
  let first := vindexStatement AddColVindexDDLAction "t1" "hash_vdx" (Some "hash") ["id"] in
  let second :=
    {| Action := AddColVindexDDLAction; TableIsEmpty := false; TableName := "t2";
       SpecName := "hash_vdx"; SpecTypeNotEmpty := true; SpecType := "hash";
       SpecOwner := ""; SpecParams := None; VindexCols := ["id"];
       AutoIncColumn := ""; AutoIncSequence := "" |} in
  ∃ ksvs'',
    applyDDL map_to_list "ks" second
      (objectAfter (applyDDL map_to_list "ks" first (emptyVSchema "ks")))
    = (ksvs'', inr tt) ∧
    Vindexes ksvs'' = {[ "hash_vdx" := hashVindex ]} ∧
    Sharded ksvs'' = true.
Proof.
  refine (vindex_shared_across_tables map_to_list "ks"
    (vindexStatement AddColVindexDDLAction "t1" "hash_vdx" (Some "hash") ["id"])
    {| Action := AddColVindexDDLAction; TableIsEmpty := false; TableName := "t2";
       SpecName := "hash_vdx"; SpecTypeNotEmpty := true; SpecType := "hash";
       SpecOwner := ""; SpecParams := None; VindexCols := ["id"];
       AutoIncColumn := ""; AutoIncSequence := "" |}
    (emptyVSchema "ks")
    (objectAfter (applyDDL map_to_list "ks"
       (vindexStatement AddColVindexDDLAction "t1" "hash_vdx" (Some "hash") ["id"])
       (emptyVSchema "ks")))
    eq_refl eq_refl eq_refl eq_refl eq_refl eq_refl eq_refl eq_refl eq_refl _ _).
  - vm_compute. reflexivity.
  - intros table Htable. vm_compute in Htable. discriminate.
Defined.

(** ** Dropping the last reference, then the vindex *)

Lemma removeAt_unreferenced name (cvs : list ColumnVindex) i cv :
  NoDup (cvName <$> cvs) →
  indexOf name cvs = Some i →
  cv ∈ removeAt i cvs → cvName cv ≠ name.
Proof.
  intros Hdup Hi Hin Hname.
  destruct (indexOf_Some _ _ _ Hi) as [(cv0 & Hcv0 & Hname0) _].
  rewrite removeAt_delete in Hin. apply list_elem_of_lookup in Hin as [j Hj].
  assert (Hj' : ∃ j', j' ≠ i ∧ cvs !! j' = Some cv).
  { destruct (decide (j < i)).
    - exists j. split; [lia |]. by rewrite list_lookup_delete_lt in Hj.
    - exists (S j). split; [lia |]. by rewrite list_lookup_delete_ge in Hj by lia. }
  destruct Hj' as (j' & Hne & Hcv). apply Hne.
  apply (NoDup_lookup (cvName <$> cvs) j' i name Hdup).
  - by rewrite list_lookup_fmap, Hcv; simpl; rewrite Hname.
  - by rewrite list_lookup_fmap, Hcv0; simpl; rewrite Hname0.
Qed.

(** X10.  Once the only table that references a vindex has dropped its
    column vindex, the vindex can be dropped.  On a schema where no table
    carries the same vindex name twice: if DropColumnVindex succeeds on a
    table and no other table references the vindex, then DropVindex of that
    vindex, present in the keyspace, succeeds on the result and removes
    exactly that entry, in whichever order the tables are visited. *)
Theorem dropColVindex_then_dropVindex
    (rangeTables : gmap string Table → list (string * Table))
    ksName dropCol dropVindex ksvs ksvs' :
  (∀ m, rangeTables m ≡ₚ map_to_list m) →
  Action dropCol = DropColVindexDDLAction →
  Action dropVindex = DropVindexDDLAction →
  SpecName dropVindex = SpecName dropCol →
  uniqueNames ksvs →
  is_Some (Vindexes ksvs !! SpecName dropCol) →
  (∀ tableName table,
     tableName ≠ TableName dropCol →
     Tables ksvs !! tableName = Some table →
     ¬ references (SpecName dropCol) table) →
  applyDDL rangeTables ksName dropCol ksvs = (ksvs', inr tt) →
  applyDDL rangeTables ksName dropVindex ksvs'
  = (withVindexes ksvs' (delete (SpecName dropCol) (Vindexes ksvs)), inr tt).
Proof.
  intros Hperm Hact1 Hact2 Hname Huniq [vindex Hvindex] Hothers Hrun.
  destruct (dropColVindex_success _ _ _ _ _ Hrun Hact1)
    as (table & i & _ & Htable & Hi & ->).
  rewrite uniqueNames_lookup in Huniq. specialize (Huniq _ _ Htable).
  clear Hrun. unfold_ddl. rewrite Hact2. simpl. rewrite Hname, Hvindex. simpl.
  match goal with
  | |- context [stillDefinedOn ?n ?l] =>
      assert (Hscan : stillDefinedOn n l = None)
  end.
  { apply stillDefinedOn_None. intros tn t Hin Href.
    apply (elem_of_rangeTables _ Hperm) in Hin.
    apply Exists_exists in Href as (cv & Hcv & Hcvname).
    destruct (decide (tn = TableName dropCol)) as [-> | Hne].
    - destruct (removeAt i (tColumnVindexes table)) eqn:Hrest.
      + by rewrite lookup_delete_eq in Hin.
      + rewrite lookup_insert_eq in Hin. simplify_eq/=.
        rewrite <- Hrest in Hcv.
        by apply (removeAt_unreferenced _ _ _ _ Huniq Hi Hcv).
    - apply (Hothers tn t Hne); [| apply Exists_exists; by exists cv].
      destruct (removeAt i (tColumnVindexes table)).
      + by rewrite lookup_delete_ne in Hin.
      + by rewrite lookup_insert_ne in Hin. }
  by rewrite Hscan.
Qed.

(** Scenarios 5 and 6 in one go. *)
Lemma dropColVindex_then_dropVindex_witness :
  applyDDL map_to_list "ks" (vindexStatement DropVindexDDLAction "" "hash_vdx" None [])
    (objectAfter (applyDDL map_to_list "ks"
       (vindexStatement DropColVindexDDLAction "t1" "hash_vdx" None [])
       (ksWithRoutedTable None)))
  = ({| Name := "ks"; Sharded := true; Tables := ∅; Vindexes := ∅ |}, inr tt).
Proof.
  refine (eq_trans (dropColVindex_then_dropVindex map_to_list "ks"
    (vindexStatement DropColVindexDDLAction "t1" "hash_vdx" None [])
    (vindexStatement DropVindexDDLAction "" "hash_vdx" None [])
    (ksWithRoutedTable None) _ _ eq_refl eq_refl eq_refl _ _ _ _) _).
  - intros m. reflexivity.
  - apply (bool_decide_eq_true_1 (uniqueNames (ksWithRoutedTable None))).
    vm_compute. reflexivity.
  - exists hashVindex. reflexivity.
  - intros tableName table Hne Htable. simpl in Htable.
    apply lookup_singleton_Some in Htable as [<- _]. done.
  - vm_compute. reflexivity.
  - vm_compute. reflexivity.
Defined.

(** ** Vindexes and the sharded flag *)

(** X12.  A keyspace that has a vindex is marked sharded, and this is an
    invariant: it holds of the schema synthesised for a keyspace without
    one, and if it holds of a schema it holds of the schema any successful
    call returns. *)
Theorem shardedIfVindexes_preserved rangeTables ksName alterVschema ksvs ksvs' :
  shardedIfVindexes (emptyVSchema ksName) ∧
  (shardedIfVindexes ksvs →
   applyDDL rangeTables ksName alterVschema ksvs = (ksvs', inr tt) →
   shardedIfVindexes ksvs').
Proof.
  unfold shardedIfVindexes. split; [simpl; intros Hne; by destruct Hne |].
  intros Hinv Hrun Hne.
  assert (Hgrown : (if Nat.eqb (size (Vindexes ksvs)) 0 then true else Sharded ksvs)
                   = true).
  { destruct (Nat.eqb (size (Vindexes ksvs)) 0) eqn:Hsize; [done |].
    apply Hinv. apply Nat.eqb_neq in Hsize. by rewrite map_size_empty_iff in Hsize. }
  destruct (Action alterVschema) eqn:Hact.
  - by destruct (createVindex_success _ _ _ _ _ Hrun Hact) as (_ & _ & _ & _ & ->).
  - destruct (dropVindex_success _ _ _ _ _ Hrun Hact) as (_ & _ & ->).
    simpl in *. apply Hinv. intros Hempty. rewrite Hempty in Hne.
    by rewrite delete_empty in Hne.
  - destruct (addVschemaTable_success _ _ _ _ _ Hrun Hact) as (_ & _ & ->). auto.
  - destruct (dropVschemaTable_success _ _ _ _ _ Hrun Hact) as (_ & ->). auto.
  - destruct (addColVindex_success _ _ _ _ _ Hrun Hact)
      as (_ & _ & _ & [(_ & _ & _ & ->) | (_ & HV & ->)]); [done |].
    apply Hinv. by rewrite <- HV.
  - destruct (dropColVindex_success _ _ _ _ _ Hrun Hact) as (? & ? & _ & _ & _ & ->).
    auto.
  - destruct (addSequence_success _ _ _ _ _ Hrun Hact) as (_ & _ & ->). auto.
  - destruct (dropSequence_success _ _ _ _ _ Hrun Hact) as (_ & _ & ->). auto.
  - destruct (addAutoInc_success _ _ _ _ _ Hrun Hact) as (? & _ & _ & ->). auto.
  - destruct (dropAutoInc_success _ _ _ _ _ Hrun Hact) as (? & _ & _ & ->). auto.
  - destruct (otherAction_fails _ _ _ _ _ Hrun _ Hact).
Qed.

(** Scenario 1: the first vindex of the empty keyspace. *)
Lemma shardedIfVindexes_preserved_witness :
  shardedIfVindexes (objectAfter (applyDDL map_to_list "ks"
    (vindexStatement CreateVindexDDLAction "" "hash_vdx" (Some "hash") [])
    (emptyVSchema "ks"))).
Proof.
  destruct (shardedIfVindexes_preserved map_to_list "ks"
    (vindexStatement CreateVindexDDLAction "" "hash_vdx" (Some "hash") [])
    (emptyVSchema "ks")
    (objectAfter (applyDDL map_to_list "ks"
       (vindexStatement CreateVindexDDLAction "" "hash_vdx" (Some "hash") [])
       (emptyVSchema "ks")))) as [Hempty Hstep].
  apply (Hstep Hempty). vm_compute. reflexivity.
Defined.
